(** * chaitorch training extensions: a shallow embedding

    This development embeds [chaitorch/training/extension.py] (the
    [Extension] base class, [LogReport], [ProgressBar], the two
    evaluators and [SnapshotModel]) together with the parts of the
    environment the extensions talk to: a small POSIX file system, the
    observation [Reporter] and the [Summarizer].

    Python dictionaries are finite maps ([gmap]) keyed by strings, Python
    exceptions are values of the type [exn], and a method that mutates
    [self] or the process state returns the new receiver and the new
    [World] next to its result.  Floating-point scalars are idealised as
    canonical rationals ([Qc]); no rounding is modelled. *)

From Stdlib Require Import Ascii QArith Qcanon.
From stdpp Require Import base ssreflect option list strings pretty gmap fin_maps numbers sorting.

Set Warnings "-rewrite-rw,-deprecated-since-9.3,-clear-no-such-hyp".
Local Open Scope Z_scope.

(** ** Exceptions *)

(** The subclasses of [OSError] that the file-system calls can raise. *)
Inductive oserror :=
  | FileExistsError
  | FileNotFoundError
  | NotADirectoryError
  | IsADirectoryError
  | ShutilError.

Inductive exn :=
  | NotImplementedError
  | KeyError (key : string)
  | IndexError
  | TypeError
  | UnboundLocalError (var : string)
  | AttributeError (attr : string)
  | ZeroDivisionError
  | ValueError
  | OSError (e : oserror)
  | CollaboratorError (msg : string).

#[global] Instance oserror_eq_dec : EqDecision oserror.
Proof. solve_decision. Defined.
#[global] Instance exn_eq_dec : EqDecision exn.
Proof. solve_decision. Defined.

(** [result A] is the outcome of a call: an exception or a value. *)
Definition result (A : Type) : Type := exn + A.

Definition rbind {A B} (r : result A) (k : A → result B) : result B :=
  match r with inl e => inl e | inr a => k a end.

Notation "x ←r c ; k" := (rbind c (λ x, k))
  (at level 100, c at next level, right associativity, only parsing).

(** [try: ... except OSError: pass]: an [OSError] raised in the body is
    swallowed, any other exception propagates. *)
Definition except_OSError_pass (r : result unit) : result unit :=
  match r with
  | inl (OSError _) => inr tt
  | other => other
  end.

(** ** Strings: [os.path.join], [str.ljust], [str * int] *)

Definition slash : ascii := "/"%char.

Definition starts_with_slash (s : string) : bool :=
  match s with
  | String c _ => bool_decide (c = slash)
  | EmptyString => false
  end.

Fixpoint ends_with_slash (s : string) : bool :=
  match s with
  | EmptyString => false
  | String c EmptyString => bool_decide (c = slash)
  | String _ rest => ends_with_slash rest
  end.

(** [posixpath.join(a, b)]: an absolute [b] replaces [a]; otherwise [b] is
    appended, with a separator unless [a] is empty or already ends with
    one. *)
Definition os_path_join (a b : string) : string :=
  if starts_with_slash b then b
  else if bool_decide (a = "") || ends_with_slash a then a +:+ b
  else a +:+ "/" +:+ b.

(** [c * n] for a one-character string [c]. *)
Fixpoint str_repeat (c : ascii) (n : nat) : string :=
  match n with
  | O => EmptyString
  | S n' => String c (str_repeat c n')
  end.

(** [s.ljust(width)]: pad with spaces on the right up to [width]; a longer
    string is returned unchanged. *)
Definition ljust (width : nat) (s : string) : string :=
  s +:+ str_repeat " "%char (width - String.length s).

Definition str_concat (l : list string) : string :=
  foldr String.append "" l.

(** ** Paths and the file system *)

(** A path is resolved to its list of components; an absolute path starts
    with the component ["/"].  The empty component list is the current
    directory. *)
Definition path := list string.

Fixpoint split_go (cur : string) (s : string) : list string :=
  match s with
  | EmptyString => [String.rev cur]
  | String c rest =>
      if bool_decide (c = slash) then String.rev cur :: split_go "" rest
      else split_go (String c cur) rest
  end.

Definition components (s : string) : list string :=
  filter (λ c, c ≠ "" ∧ c ≠ ".") (split_go "" s).

(** Resolving the empty path name fails with ENOENT, as every POSIX call
    does. *)
Definition resolve (s : string) : result path :=
  if bool_decide (s = "") then inl (OSError FileNotFoundError)
  else inr ((if starts_with_slash s then ["/"] else []) ++ components s).

Definition parent (p : path) : path := removelast p.

Definition basename (p : path) : string := List.last p "".

Record FS := mkFS {
  files : gmap path string;
  dirs : gset path
}.

Definition fs_isdir (fs : FS) (p : path) : bool :=
  bool_decide (p = [] ∨ p = ["/"] ∨ p ∈ dirs fs).

Definition fs_isfile (fs : FS) (p : path) : bool :=
  bool_decide (is_Some (files fs !! p)).

Definition fs_exists (fs : FS) (p : path) : bool :=
  fs_isdir fs p || fs_isfile fs p.

(** The error raised when the directory that should contain [p] is not a
    directory. *)
Definition missing_parent (fs : FS) (p : path) : exn :=
  if fs_isfile fs (parent p) then OSError NotADirectoryError
  else OSError FileNotFoundError.

(** [os.mkdir(p)] *)
Definition fs_mkdir (p : path) (fs : FS) : result FS :=
  if fs_exists fs p then inl (OSError FileExistsError)
  else if fs_isdir fs (parent p)
  then inr (mkFS (files fs) ({[p]} ∪ dirs fs))
  else inl (missing_parent fs p).

(** [os.makedirs(name)] with [exist_ok=False]: create the missing parent
    first (a parent that appeared meanwhile is fine), then the leaf.  The
    directories made before an exception stay. *)
Fixpoint makedirs_go (fuel : nat) (p : path) (fs : FS) : result unit * FS :=
  let mkdir_leaf fs0 :=
    match fs_mkdir p fs0 with
    | inl e => (inl e, fs0)
    | inr fs1 => (inr tt, fs1)
    end in
  match fuel with
  | O => mkdir_leaf fs
  | S fuel' =>
      let head := parent p in
      let '(r, fs1) :=
        if bool_decide (head ≠ []) && negb (fs_exists fs head)
        then match makedirs_go fuel' head fs with
             | (inl (OSError FileExistsError), fs0) => (inr tt, fs0)
             | other => other
             end
        else (inr tt, fs) in
      match r with
      | inl e => (inl e, fs1)
      | inr _ => mkdir_leaf fs1
      end
  end.

Definition os_makedirs (name : string) (fs : FS) : result unit * FS :=
  match resolve name with
  | inl e => (inl e, fs)
  | inr p => makedirs_go (length p) p fs
  end.

(** [open(name, 'w')]: create or truncate a regular file. *)
Definition fs_open_w (name : string) (fs : FS) : result FS :=
  p ←r resolve name;
  if fs_isdir fs p then inl (OSError IsADirectoryError)
  else if fs_isdir fs (parent p)
  then inr (mkFS (<[p := ""]> (files fs)) (dirs fs))
  else inl (missing_parent fs p).

(** [wf.write(chunk)] on a file opened by [fs_open_w]. *)
Definition fs_write (name : string) (chunk : string) (fs : FS) : result FS :=
  p ←r resolve name;
  match files fs !! p with
  | Some old => inr (mkFS (<[p := old +:+ chunk]> (files fs)) (dirs fs))
  | None => inl (OSError FileNotFoundError)
  end.

(** [os.rename(src, dst)] for a regular file [src]: one atomic step that
    replaces whatever regular file was at [dst]. *)
Definition fs_rename (src dst : path) (fs : FS) : result FS :=
  match files fs !! src with
  | None => inl (OSError FileNotFoundError)
  | Some c =>
      if fs_isdir fs dst then inl (OSError IsADirectoryError)
      else if fs_isdir fs (parent dst)
      then inr (mkFS (<[dst := c]> (delete src (files fs))) (dirs fs))
      else inl (missing_parent fs dst)
  end.

(** Where [shutil.move(src, dst)] puts the file: inside [dst] when [dst] is
    an existing directory, at [dst] otherwise. *)
Definition move_target (fs : FS) (src dst : path) : path :=
  if fs_isdir fs dst then dst ++ [basename src] else dst.

(** [shutil.move(src, dst)] within one file system. *)
Definition shutil_move (src dst : string) (fs : FS) : result FS :=
  s ←r resolve src;
  d ←r resolve dst;
  if fs_isdir fs d && fs_exists fs (move_target fs s d)
  then inl (OSError ShutilError)
  else fs_rename s (move_target fs s d) fs.

(** [shutil.rmtree(d)], as run when a [TemporaryDirectory] is left:
    everything at or below [d] disappears. *)
Definition fs_rmtree (d : path) (fs : FS) : FS :=
  mkFS (filter (λ kv, ¬ d `prefix_of` kv.1) (files fs))
       (filter (λ p, ¬ d `prefix_of` p) (dirs fs)).

(** Writing a whole file in one call, as [torch.save(obj, name)] does with
    the serialised object. *)
Definition fs_save (name : string) (content : string) (fs : FS) : result FS :=
  fs1 ←r fs_open_w name fs; fs_write name content fs1.

(** ** File-system scripts and crashes *)

(** The primitive calls [LogReport] issues while it persists its log.  A
    crash stops the process between two of them. *)
Inductive fsop :=
  | OpOpen (name : string)
  | OpWrite (name : string) (chunk : string)
  | OpMove (src dst : string).

Definition exec_op (op : fsop) (fs : FS) : result FS :=
  match op with
  | OpOpen name => fs_open_w name fs
  | OpWrite name chunk => fs_write name chunk fs
  | OpMove src dst => shutil_move src dst fs
  end.

(** Run a script; the first exception stops it and leaves the file system
    as the failing call found it. *)
Fixpoint exec_ops (ops : list fsop) (fs : FS) : result unit * FS :=
  match ops with
  | [] => (inr tt, fs)
  | op :: rest =>
      match exec_op op fs with
      | inl e => (inl e, fs)
      | inr fs' => exec_ops rest fs'
      end
  end.

(** [tempfile.mkdtemp(dir=dir)]: try the candidate names the random name
    generator yields until [os.mkdir] does not report an existing entry. *)
Fixpoint mkdtemp (dir : string) (names : list string) (fs : FS)
    : result (string * FS) * list string :=
  match names with
  | [] => (inl (OSError FileExistsError), [])
  | name :: rest =>
      let file := os_path_join dir ("tmp" +:+ name) in
      match (p ←r resolve file; fs_mkdir p fs) with
      | inl (OSError FileExistsError) => mkdtemp dir rest fs
      | inl e => (inl e, rest)
      | inr fs' => (inr (file, fs'), rest)
      end
  end.

(** [dst] lies in none of the directories [mkdtemp] may create below
    [dir] for the candidate names. *)
Definition clear_of_tempdirs (dir : string) (names : list string) (dst : path)
    : bool :=
  forallb (λ name,
             match resolve (os_path_join dir ("tmp" +:+ name)) with
             | inr p => negb (bool_decide (p `prefix_of` dst))
             | inl _ => true
             end) names.

(** Nothing exists yet at the paths [base/r1], [base/r1/r2], ... down to
    [base ++ rest]. *)
Definition chain_free (fs : FS) (base rest : path) : bool :=
  forallb (λ i, negb (fs_exists fs (base ++ take i rest)))
          (seq 1 (length rest)).

(** Leaving a [TemporaryDirectory]: the directory and its content are
    removed. *)
Definition tempdir_cleanup (tempd : string) (fs : FS) : FS :=
  match resolve tempd with
  | inr d => fs_rmtree d fs
  | inl _ => fs
  end.

(** ** Values, observations and log records *)

(** The numbers a log record holds: [epoch] and [iteration] are Python
    integers, means and the elapsed time are floats. *)
Inductive pyval :=
  | PyInt (n : Z)
  | PyFloat (x : Qc).

#[global] Instance pyval_eq_dec : EqDecision pyval.
Proof. solve_decision. Defined.

(** The arithmetic mean of a list of scalars, as a sum divided by the number
    of terms; this is the reference "simple average" of the specification. *)
Definition Qc_sum (l : list Qc) : Qc := foldl Qcplus (Q2Qc 0) l.

Definition mean (l : list Qc) : Qc :=
  (Qc_sum l / Qc_of_Z (Z.of_nat (length l)))%Qc.

(** The values reported for [key] in a sequence of observations, and
    their simple average; a key that was never reported has none. *)
Definition interval_values (ds : list (gmap string Qc)) (key : string)
    : list Qc :=
  omap (λ d : gmap string Qc, d !! key) ds.

Definition interval_mean (ds : list (gmap string Qc)) (key : string)
    : option Qc :=
  match interval_values ds key with
  | [] => None
  | vs => Some (mean vs)
  end.

(** ** Summarizer *)

(** Modelled from the spec: [chaitorch.utils.reporter.Summarizer] is not
    part of the sources.  It holds, per key, a running sum and a running
    count; [add] advances the keys present in the observation by their value
    and by one; [compute_mean] divides, for every key seen, the sum by the
    count and leaves the state alone. *)
Record Summarizer := mkSummarizer {
  summaries : gmap string (Qc * nat)
}.

(** Modelled from the spec: a fresh [Summarizer()] has seen no key. *)
Definition Summarizer_new : Summarizer := mkSummarizer ∅.

(** Modelled from the spec: what [Summarizer.add] does to the entry of one
    key, given the value the observation has for it, if any. *)
Definition summary_step (acc : option (Qc * nat)) (v : option Qc)
    : option (Qc * nat) :=
  match acc, v with
  | Some (x, n), Some y => Some ((x + y)%Qc, S n)
  | None, Some y => Some ((Q2Qc 0 + y)%Qc, 1%nat)
  | acc, None => acc
  end.

(** Modelled from the spec: [Summarizer.add(observation)]. *)
Definition Summarizer_add (s : Summarizer) (d : gmap string Qc) : Summarizer :=
  mkSummarizer (merge summary_step (summaries s) d).

(** Modelled from the spec: [Summarizer.compute_mean()]. *)
Definition Summarizer_compute_mean (s : Summarizer) : gmap string Qc :=
  (λ xn : Qc * nat, (xn.1 / Qc_of_Z (Z.of_nat xn.2))%Qc) <$> summaries s.

(** ** Models, trainer, world *)

Definition Params := gmap string (list Qc).

(** A network: its identity (Python's [id]), the mode flag toggled by
    [model.train()] and [model.eval()], and its [state_dict()]. *)
Record Model := mkModel {
  model_id : nat;
  training : bool;
  params : Params
}.

Definition Model_eval (m : Model) : Model :=
  mkModel (model_id m) false (params m).

Definition Model_train (m : Model) : Model :=
  mkModel (model_id m) true (params m).

(** An updater exposes either the attribute [model] or the dictionary
    [models] (in insertion order). *)
Inductive UpdaterModels :=
  | HasModel (m : Model)
  | HasModels (ms : list (string * Model)).

(** What the extensions read from the trainer they are called with. *)
Record Trainer := mkTrainer {
  updater_epoch : Z;
  updater_iteration : Z;
  updater_data_loader_len : Z;
  updater_models : UpdaterModels;
  trigger_span : Z;
  total_iter : Z;
  elapsed_time : Qc;
  out : string;
  observation : gmap string Qc
}.

(** Modelled from the spec: the [Reporter] of [chaitorch.utils.reporter]
    is not part of the sources.  A reporter maps observer identities to
    name prefixes; the process keeps a stack of open scopes, each with the
    observer names of the reporter that opened it and the mapping that
    collects what is reported while it is the innermost one. *)
Record Reporter := mkReporter {
  observer_names : gmap nat string
}.

(** Modelled from the spec: one open scope on the reporter stack. *)
Record Frame := mkFrame {
  frame_observers : gmap nat string;
  frame_target : gmap string Qc
}.

(** The state of the process and its surroundings. *)
Record World := mkWorld {
  trainer : Trainer;
  fs : FS;
  stdout : list string;
  grad_enabled : bool;
  reporters : list Frame;
  clock : Qc;
  rng : list string
}.

Definition set_fs (f : FS) (w : World) : World :=
  mkWorld (trainer w) f (stdout w) (grad_enabled w) (reporters w) (clock w) (rng w).

Definition set_rng (r : list string) (w : World) : World :=
  mkWorld (trainer w) (fs w) (stdout w) (grad_enabled w) (reporters w) (clock w) r.

Definition set_grad_enabled (g : bool) (w : World) : World :=
  mkWorld (trainer w) (fs w) (stdout w) g (reporters w) (clock w) (rng w).

Definition set_reporters (r : list Frame) (w : World) : World :=
  mkWorld (trainer w) (fs w) (stdout w) (grad_enabled w) r (clock w) (rng w).

Definition set_trainer (t : Trainer) (w : World) : World :=
  mkWorld t (fs w) (stdout w) (grad_enabled w) (reporters w) (clock w) (rng w).

(** [sys.stdout.write(s)] *)
Definition stdout_write (s : string) (w : World) : World :=
  mkWorld (trainer w) (fs w) (stdout w ++ [s]) (grad_enabled w) (reporters w)
          (clock w) (rng w).

Definition set_observation (o : gmap string Qc) (t : Trainer) : Trainer :=
  mkTrainer (updater_epoch t) (updater_iteration t) (updater_data_loader_len t)
            (updater_models t) (trigger_span t) (total_iter t) (elapsed_time t)
            (out t) o.

Definition set_updater_models (u : UpdaterModels) (t : Trainer) : Trainer :=
  mkTrainer (updater_epoch t) (updater_iteration t) (updater_data_loader_len t)
            u (trigger_span t) (total_iter t) (elapsed_time t)
            (out t) (observation t).

(** Replace the object behind [trainer.updater.model]. *)
Definition set_model (m : Model) (w : World) : World :=
  set_trainer (set_updater_models (HasModel m) (trainer w)) w.

(** *** Reporting *)

(** Modelled from the spec: [Reporter()] knows no observer. *)
Definition Reporter_new : Reporter := mkReporter ∅.

(** Modelled from the spec: [reporter.add_observer(name, observer)]
    registers the prefix of an observer, identified by its [id]. *)
Definition Reporter_add_observer (name : string) (observer : nat) (r : Reporter)
    : Reporter :=
  mkReporter (<[observer := name]> (observer_names r)).

(** Modelled from the spec: the keys of [values] as the innermost scope
    records them, prefixed with the observer's name when the observer is
    registered. *)
Definition prefixed (names : gmap nat string) (observer : option nat)
    (values : gmap string Qc) : gmap string Qc :=
  match observer ≫= (λ o, names !! o) with
  | Some name =>
      map_fold (λ k v acc, <[name +:+ "/" +:+ k := v]> acc) ∅ values
  | None => values
  end.

(** Modelled from the spec: [report_mod.report(values, observer)] writes
    into the innermost open scope, or into the trainer's observation when no
    scope is open. *)
Definition report (values : gmap string Qc) (observer : option nat) (w : World)
    : World :=
  match reporters w with
  | fr :: rest =>
      set_reporters
        (mkFrame (frame_observers fr)
                 (prefixed (frame_observers fr) observer values ∪ frame_target fr)
         :: rest) w
  | [] =>
      set_trainer
        (set_observation (prefixed ∅ observer values ∪ observation (trainer w))
                         (trainer w)) w
  end.

(** Modelled from the spec: entering [reporter.scope(observation)] makes a
    fresh empty mapping the innermost target. *)
Definition scope_enter (r : Reporter) (w : World) : World :=
  set_reporters (mkFrame (observer_names r) ∅ :: reporters w) w.

(** Modelled from the spec: leaving the scope pops the innermost mapping
    and copies its content into the destination dictionary, which is
    returned. *)
Definition scope_exit (dest : gmap string Qc) (w : World)
    : gmap string Qc * World :=
  match reporters w with
  | fr :: rest => (frame_target fr ∪ dest, set_reporters rest w)
  | [] => (dest, w)
  end.

(** ** Collaborators *)

(** The data the external collaborators exchange with the extensions. *)
Class Domain := {
  TriggerState : Type;
  Batch : Type;
  Input : Type;
  Tensor : Type;
  Embedding : Type;
  Matrix : Type;
  Labels : Type
}.

(** A loss computation ([eval_fn] or [trainer.updater.calc_loss]): given a
    batch, the gradient mode and the model, it may raise, it returns the
    values it reports with the model as observer, and it leaves the model in
    some state. *)
Definition LossFn {D : Domain} : Type :=
  Batch → bool → Model → result (gmap string Qc) * Model.

(** The functions the sources import and do not define: the triggers, the
    serialisers, the string formats of numbers, the network and numpy. *)
Class Collaborators {D : Domain} := {
  (** [trigger(trainer)], with the trigger's own state made explicit *)
  trigger_call : TriggerState → Trainer → bool * TriggerState;
  (** the chunks [json.dump(log, wf, indent=4)] writes, in order *)
  json_dump : list (gmap string pyval) → list string;
  (** the format specifications [f'{v:}'] and [f'{v:.5f}'] *)
  format_plain : pyval → string;
  format_5f : pyval → string;
  (** [str(datetime.timedelta(seconds=x))] *)
  format_timedelta : Qc → string;
  (** what [torch.save(state_dict, f)] writes *)
  state_dict_bytes : Params → string;
  (** [trainer.updater.calc_loss] *)
  calc_loss : LossFn;
  (** [model(x)] under the given gradient mode *)
  model_forward : bool → Model → Input → result Tensor * Model;
  (** [TripletMarginLoss()(a, p, n).item()] *)
  triplet_margin_loss : Tensor → Tensor → Tensor → Qc;
  (** [round(x, ndigits)] *)
  py_round : Qc → nat → Qc;
  (** the rows of [a_out.numpy()] *)
  tensor_rows : Tensor → list Embedding;
  (** [np.array(rows).reshape(n, -1)] *)
  np_reshape : list Embedding → nat → result Matrix;
  recall_at_rank_k_list : Matrix → Labels → list Z → list Qc
}.

Section Extensions.
Context {D : Domain} {C : Collaborators}.

(** ** Extension (base class) *)

(** The class attribute [priority] of each extension class; [LogReport]
    inherits the base value. *)
Inductive ExtensionClass :=
  | ClsExtension
  | ClsLogReport
  | ClsProgressBar
  | ClsClassifyEvaluater
  | ClsMetricEvaluater
  | ClsSnapshotModel.

Definition class_priority (c : ExtensionClass) : Z :=
  match c with
  | ClsExtension => 0
  | ClsLogReport => 0
  | ClsProgressBar => -1
  | ClsClassifyEvaluater => -1
  | ClsMetricEvaluater => -1
  | ClsSnapshotModel => 0
  end.

Record Extension := mkExtension {
  ext_trigger : TriggerState
}.

(** [Extension.__call__] *)
Definition Extension_call (self : Extension) (w : World)
    : result unit * Extension * World :=
  (inl NotImplementedError, self, w).

(** [Extension.finalize] *)
Definition Extension_finalize (w : World) : result unit * World :=
  (inr tt, w).

(** ** LogReport *)

Record LogReport := mkLogReport {
  keys : option (list string);
  lr_trigger : TriggerState;
  log_name : string;
  summarizer : Summarizer;
  log : list (gmap string pyval);
  _print : bool
}.

Definition newline : string := String (ascii_of_nat 10) "".
Definition esc : string := String (ascii_of_nat 27) "".

(** The width of a key's column, as the header line lays it out. *)
Definition column_width (key : string) : nat :=
  if bool_decide (key ∈ ["epoch"; "iteration"]) then 10%nat else 20%nat.

(** [LogReport._init_summary] *)
Definition LogReport_init_summary (self : LogReport) : LogReport :=
  mkLogReport (keys self) (lr_trigger self) (log_name self) Summarizer_new
              (log self) (_print self).

(** [LogReport.__init__]: with [_print] set the header is printed, which
    iterates over [keys]. *)
Definition LogReport_init (ks : option (list string)) (trigger : TriggerState)
    (name : string) (pr : bool) (w : World) : result LogReport * World :=
  let self := mkLogReport ks trigger name Summarizer_new [] pr in
  if pr then
    match ks with
    | None => (inl TypeError, w)
    | Some l =>
        (inr self,
         stdout_write
           (str_concat (map (λ key, ljust (column_width key) key) l) +:+ newline)
           w)
    end
  else (inr self, w).

(** [{k: observation[k] for k in keys if k in observation}] *)
Definition dict_select (ks : list string) (observation : gmap string Qc)
    : gmap string Qc :=
  foldl (λ d k, match observation !! k with
                | Some v => <[k := v]> d
                | None => d
                end) ∅ ks.

(** One column of the console line: the value of [key] in the last record,
    with [KeyError] handled by blank padding. *)
Definition printout_cell (record : gmap string pyval) (key : string) : string :=
  match record !! key with
  | Some v =>
      if bool_decide (key ∈ ["epoch"; "iteration"])
      then ljust 10 (format_plain v)
      else ljust 20 (format_5f v)
  | None => ljust 20 ""
  end.

Fixpoint printout_cells (lg : list (gmap string pyval)) (ks : list string)
    : result (list string) :=
  match ks with
  | [] => inr []
  | key :: rest =>
      match list.last lg with
      | None => inl IndexError
      | Some record =>
          outs ←r printout_cells lg rest;
          inr (printout_cell record key :: outs)
      end
  end.

(** [LogReport.printout] *)
Definition LogReport_printout (self : LogReport) (w : World)
    : result unit * World :=
  match keys self with
  | None => (inl TypeError, w)
  | Some ks =>
      match printout_cells (log self) ks with
      | inl e => (inl e, w)
      | inr outputs =>
          let line := str_concat outputs in
          (inr tt,
           stdout_write (esc +:+ "[2K" +:+ esc +:+ "[G" +:+ line +:+ newline) w)
      end
  end.

(** The record of a fired interval: the means, then the three entries
    assigned after [compute_mean]. *)
Definition make_record (means : gmap string Qc) (t : Trainer)
    : gmap string pyval :=
  <["elapsed_time" := PyFloat (elapsed_time t)]>
    (<["iteration" := PyInt (total_iter t)]>
       (<["epoch" := PyInt (updater_epoch t)]> (PyFloat <$> means))).

(** The calls that stage the log in [path] and move it to [new_path]. *)
Definition persist_ops (path new_path : string) (chunks : list string)
    : list fsop :=
  OpOpen path :: map (OpWrite path) chunks ++ [OpMove path new_path].

(** The [with tempfile.TemporaryDirectory(dir=trainer.out)] block of
    [LogReport.__call__]. *)
Definition LogReport_persist (self : LogReport) (w : World)
    : result unit * World :=
  match mkdtemp (out (trainer w)) (rng w) (fs w) with
  | (inl e, rest) => (inl e, set_rng rest w)
  | (inr (tempd, fs1), rest) =>
      let path := os_path_join tempd "log.json" in
      let new_path := os_path_join (out (trainer w)) (log_name self) in
      let '(r, fs2) :=
        exec_ops (persist_ops path new_path (json_dump (log self))) fs1 in
      (r, set_fs (tempdir_cleanup tempd fs2) (set_rng rest w))
  end.

(** The file system a crash leaves behind when the process stops after the
    temporary directory was made and [k] further calls of the block were
    issued; nothing is cleaned up. *)
Definition LogReport_persist_crash (self : LogReport) (k : nat) (w : World)
    : FS :=
  match mkdtemp (out (trainer w)) (rng w) (fs w) with
  | (inl e, _) => fs w
  | (inr (tempd, fs1), _) =>
      let path := os_path_join tempd "log.json" in
      let new_path := os_path_join (out (trainer w)) (log_name self) in
      (exec_ops (take k (persist_ops path new_path (json_dump (log self))))
                fs1).2
  end.

(** [LogReport.__call__] *)
Definition LogReport_call (self : LogReport) (w : World)
    : result unit * LogReport * World :=
  let observation := observation (trainer w) in
  let summarizer1 :=
    match keys self with
    | None => Summarizer_add (summarizer self) observation
    | Some ks => Summarizer_add (summarizer self) (dict_select ks observation)
    end in
  let '(fired, trigger1) := trigger_call (lr_trigger self) (trainer w) in
  let self1 :=
    mkLogReport (keys self) trigger1 (log_name self) summarizer1 (log self)
                (_print self) in
  if fired then
    let results :=
      make_record (Summarizer_compute_mean summarizer1) (trainer w) in
    let self2 :=
      mkLogReport (keys self) trigger1 (log_name self) summarizer1
                  (log self ++ [results]) (_print self) in
    match LogReport_persist self2 w with
    | (inl e, w1) => (inl e, self2, w1)
    | (inr _, w1) =>
        match (if _print self2 then LogReport_printout self2 w1
               else (inr tt, w1)) with
        | (inl e, w2) => (inl e, self2, w2)
        | (inr _, w2) => (inr tt, LogReport_init_summary self2, w2)
        end
    end
  else (inr tt, self1, w).

(** The observation one call folds into the summarizer: the trainer's
    observation, restricted to [keys] unless [keys] is [None]. *)
Definition LogReport_folded (self : LogReport) (w : World) : gmap string Qc :=
  match keys self with
  | None => observation (trainer w)
  | Some ks => dict_select ks (observation (trainer w))
  end.

(** Modelled from the spec: the per-step observation "filtered down to a
    configured key set (or taken unfiltered)".  With a key set the entries
    of the observation whose key is in the set remain and nothing else; it
    is written without reference to the comprehension of [__call__], with
    which the theorems compare it. *)
Definition filtered_observation (ks : option (list string))
    (obs : gmap string Qc) : gmap string Qc :=
  match ks with
  | None => obs
  | Some l => filter (λ kv : string * Qc, kv.1 ∈ l) obs
  end.

(** The extension after it was called in the worlds [ws], one call per
    training step, when its trigger fired in none of them. *)
Fixpoint LogReport_quiet_calls (self : LogReport) (ws : list World)
    : option LogReport :=
  match ws with
  | [] => Some self
  | w :: rest =>
      if (trigger_call (lr_trigger self) (trainer w)).1 then None
      else LogReport_quiet_calls (LogReport_call self w).1.2 rest
  end.

(** ** ProgressBar *)

Record ProgressBar := mkProgressBar {
  update_interval : Z;
  previous : Qc;
  cost : Qc
}.

(** [int(x)] for a float: truncation towards zero. *)
Definition py_int (x : Qc) : Z := Z.quot (Qnum (this x)) (Z.pos (Qden (this x))).

(** [f'{s:0>8}'] *)
Definition zero_fill_8 (s : string) : string :=
  str_repeat "0"%char (8 - String.length s) +:+ s.

Definition bar (label : string) (filled : Z) : string :=
  label +:+ str_repeat "#"%char (Z.to_nat filled)
        +:+ str_repeat " "%char (Z.to_nat (50 - filled)) +:+ "]".

(** [ProgressBar.__call__]; the two readings of [time.time()] within one
    call are the same instant [clock w]. *)
Definition ProgressBar_call (self : ProgressBar) (w : World)
    : result unit * ProgressBar * World :=
  let t := trainer w in
  if bool_decide (update_interval self = 0) then (inl ZeroDivisionError, self, w)
  else if bool_decide (total_iter t `mod` update_interval self = 0) then
    let epoch_len := updater_data_loader_len t in
    let overall_len := trigger_span t * epoch_len in
    if bool_decide (overall_len = 0) then (inl ZeroDivisionError, self, w)
    else
      let total_weight := (Qc_of_Z 50 / Qc_of_Z overall_len)%Qc in
      let epoch_weight := (Qc_of_Z 50 / Qc_of_Z epoch_len)%Qc in
      let iteration := updater_iteration t in
      let progress :=
        bar "     Total: [" (py_int (Qc_of_Z (total_iter t) * total_weight)%Qc) in
      let this_epoch :=
        bar "This Epoch: [" (py_int (Qc_of_Z iteration * epoch_weight)%Qc) in
      let elapsed := (clock w - previous self)%Qc in
      let cost1 := (cost self + elapsed)%Qc in
      let overall_time :=
        (elapsed / Qc_of_Z (update_interval self) * Qc_of_Z overall_len)%Qc in
      let predicted :=
        if decide (Q2Qc 0 ≤ overall_time - cost1)%Qc
        then (overall_time - cost1)%Qc else Q2Qc 0 in
      let estimated :=
        "Estimated time to finish: " +:+ zero_fill_8 (format_timedelta predicted) in
      (inr tt,
       mkProgressBar (update_interval self) (clock w) cost1,
       stdout_write
         (esc +:+ "[2K" +:+ esc +:+ "[G" +:+ progress +:+ newline +:+ this_epoch
              +:+ newline +:+ estimated +:+ esc +:+ "[1A" +:+ esc +:+ "[1A"
              +:+ esc +:+ "[G") w)
  else (inr tt, self, w).

(** [ProgressBar.finalize] *)
Definition ProgressBar_finalize (w : World) : result unit * World :=
  (inr tt, stdout_write (esc +:+ "[2K" +:+ newline +:+ esc +:+ "[2K") w).

(** ** Evaluators *)

(** [trainer.updater.model] *)
Definition get_model (w : World) : result Model :=
  match updater_models (trainer w) with
  | HasModel m => inr m
  | HasModels _ => inl (AttributeError "model")
  end.

Record ClassifyEvaluater := mkClassifyEvaluater {
  ce_data_loader : list Batch;
  ce_trigger : TriggerState;
  eval_fn : option LossFn
}.

(** The body of the [for batch in self.data_loader] loop of
    [ClassifyEvaluater.__call__], up to and including leaving the scope: the
    value is the batch's [observation]. *)
Definition Classify_batch (reporter : Reporter) (loss_fn : LossFn)
    (batch : Batch) (w : World) : result (gmap string Qc) * World :=
  let w1 := scope_enter reporter w in
  let g0 := grad_enabled w1 in
  let w2 := set_grad_enabled false w1 in
  let '(r, w3) :=
    match get_model w2 with
    | inl e => (inl e, w2)
    | inr m =>
        let w_eval := set_model (Model_eval m) w2 in
        let '(values, m1) := loss_fn batch (grad_enabled w_eval) (Model_eval m) in
        match values with
        | inl e => (inl e, set_model m1 w_eval)
        | inr vs =>
            let w_rep := report vs (Some (model_id m)) (set_model m1 w_eval) in
            (inr tt, set_model (Model_train m1) w_rep)
        end
    end in
  let w4 := set_grad_enabled g0 w3 in
  let '(observation, w5) := scope_exit ∅ w4 in
  match r with
  | inl e => (inl e, w5)
  | inr _ => (inr observation, w5)
  end.

Fixpoint Classify_loop (reporter : Reporter) (loss_fn : LossFn)
    (batches : list Batch) (summarizer : Summarizer) (w : World)
    : result Summarizer * World :=
  match batches with
  | [] => (inr summarizer, w)
  | batch :: rest =>
      match Classify_batch reporter loss_fn batch w with
      | (inl e, w1) => (inl e, w1)
      | (inr observation, w1) =>
          Classify_loop reporter loss_fn rest
                        (Summarizer_add summarizer observation) w1
      end
  end.

(** [ClassifyEvaluater.__call__] *)
Definition ClassifyEvaluater_call (self : ClassifyEvaluater) (w : World)
    : result unit * ClassifyEvaluater * World :=
  let '(fired, trigger1) := trigger_call (ce_trigger self) (trainer w) in
  let self1 := mkClassifyEvaluater (ce_data_loader self) trigger1 (eval_fn self) in
  if fired then
    match get_model w with
    | inl e => (inl e, self1, w)
    | inr m =>
        let reporter := Reporter_add_observer "validation" (model_id m) Reporter_new in
        let loss_fn := from_option id calc_loss (eval_fn self) in
        match Classify_loop reporter loss_fn (ce_data_loader self) Summarizer_new w with
        | (inl e, w1) => (inl e, self1, w1)
        | (inr summarizer, w1) =>
            (inr tt, self1, report (Summarizer_compute_mean summarizer) None w1)
        end
    end
  else (inr tt, self1, w).

(** A data loader of triplets, with what the ranking metric reads from its
    dataset. *)
Record DataLoader := mkDataLoader {
  batches : list (Input * Input * Input);
  dataset_len : nat;
  dataset_labels : Labels
}.

Record MetricEvaluater := mkMetricEvaluater {
  me_data_loader : DataLoader;
  me_trigger : TriggerState
}.

(** [model(x)] on the model the trainer's updater holds. *)
Definition forward (x : Input) (w : World) : result Tensor * World :=
  match get_model w with
  | inl e => (inl e, w)
  | inr m =>
      let '(r, m1) := model_forward (grad_enabled w) m x in
      (r, set_model m1 w)
  end.

(** The statements under [torch.no_grad()] in the batch loop of
    [MetricEvaluater.__call__]: the value is the rows appended to
    [embeddings]. *)
Definition Metric_batch_body (observer : nat) (batch : Input * Input * Input)
    (w : World) : result (list Embedding) * World :=
  let '(x_as, x_ps, x_ns) := batch in
  match forward x_as w with
  | (inl e, w1) => (inl e, w1)
  | (inr a_out, w1) =>
      match forward x_ps w1 with
      | (inl e, w2) => (inl e, w2)
      | (inr p_out, w2) =>
          match forward x_ns w2 with
          | (inl e, w3) => (inl e, w3)
          | (inr n_out, w3) =>
              let loss := triplet_margin_loss a_out p_out n_out in
              (inr (tensor_rows a_out),
               report {["loss" := py_round loss 5]} (Some observer) w3)
          end
      end
  end.

(** One round of the batch loop, up to and including leaving the scope. *)
Definition Metric_batch (reporter : Reporter) (observer : nat)
    (batch : Input * Input * Input) (w : World)
    : result (gmap string Qc * list Embedding) * World :=
  let w1 := scope_enter reporter w in
  let g0 := grad_enabled w1 in
  let '(r, w2) := Metric_batch_body observer batch (set_grad_enabled false w1) in
  let '(observation, w3) := scope_exit ∅ (set_grad_enabled g0 w2) in
  match r with
  | inl e => (inl e, w3)
  | inr rows => (inr (observation, rows), w3)
  end.

(** The batch loop; [observation] is the loop's local variable, unbound
    until the first round and still bound to the last round's dictionary
    afterwards. *)
Fixpoint Metric_loop (reporter : Reporter) (observer : nat)
    (bs : list (Input * Input * Input)) (summarizer : Summarizer)
    (embeddings : list Embedding) (observation : option (gmap string Qc))
    (w : World)
    : result (Summarizer * list Embedding * option (gmap string Qc)) * World :=
  match bs with
  | [] => (inr (summarizer, embeddings, observation), w)
  | batch :: rest =>
      match Metric_batch reporter observer batch w with
      | (inl e, w1) => (inl e, w1)
      | (inr (obs, rows), w1) =>
          Metric_loop reporter observer rest (Summarizer_add summarizer obs)
                      (embeddings ++ rows) (Some obs) w1
      end
  end.

(** [report_mod.report({f'R@{k}': score}, model)] for the pairs of
    [zip(K, scores)]. *)
Definition report_scores (observer : nat) (K : list Z) (scores : list Qc)
    (w : World) : World :=
  foldl (λ w' ks, report {["R@" +:+ pretty ks.1 := ks.2]} (Some observer) w')
        w (zip K scores).

(** The block after the batch loop of [MetricEvaluater.__call__]: the
    ranking scores are reported inside a scope whose destination is the
    loop's [observation], and [summarizer.add(observation)] runs before the
    scope is left. *)
Definition Metric_scores (self : MetricEvaluater) (reporter : Reporter)
    (observer : nat) (summarizer : Summarizer) (embeddings : list Embedding)
    (observation : option (gmap string Qc)) (w : World)
    : result Summarizer * World :=
  let K := [1; 2; 4; 8] in
  match observation with
  | None => (inl (UnboundLocalError "observation"), w)
  | Some obs =>
      let w1 := scope_enter reporter w in
      match np_reshape embeddings (dataset_len (me_data_loader self)) with
      | inl e => (inl e, (scope_exit obs w1).2)
      | inr matrix =>
          let scores :=
            recall_at_rank_k_list matrix
              (dataset_labels (me_data_loader self)) K in
          let w2 := report_scores observer K scores w1 in
          let summarizer1 := Summarizer_add summarizer obs in
          (inr summarizer1, (scope_exit obs w2).2)
      end
  end.

(** [MetricEvaluater.__call__] *)
Definition MetricEvaluater_call (self : MetricEvaluater) (w : World)
    : result unit * MetricEvaluater * World :=
  let '(fired, trigger1) := trigger_call (me_trigger self) (trainer w) in
  let self1 := mkMetricEvaluater (me_data_loader self) trigger1 in
  if fired then
    match get_model w with
    | inl e => (inl e, self1, w)
    | inr model =>
        let w0 := set_model (Model_eval model) w in
        let reporter := Reporter_add_observer "eval" (model_id model) Reporter_new in
        match Metric_loop reporter (model_id model)
                          (batches (me_data_loader self)) Summarizer_new [] None w0 with
        | (inl e, w1) => (inl e, self1, w1)
        | (inr (summarizer, embeddings, observation), w1) =>
            let w2 :=
              match get_model w1 with
              | inr m => set_model (Model_train m) w1
              | inl _ => w1
              end in
            match Metric_scores self reporter (model_id model) summarizer
                                embeddings observation w2 with
            | (inl e, w3) => (inl e, self1, w3)
            | (inr summarizer1, w3) =>
                (inr tt, self1,
                 report (Summarizer_compute_mean summarizer1) None w3)
            end
        end
    end
  else (inr tt, self1, w).

(** ** SnapshotModel *)

Record SnapshotModel := mkSnapshotModel {
  save_dir : string;
  sm_trigger : TriggerState
}.

(** [torch.save(model.state_dict(), name)] *)
Definition torch_save (m : Model) (name : string) (fs : FS) : result FS :=
  fs_save name (state_dict_bytes (params m)) fs.

(** [for k, model in models.items(): torch.save(..., join(dir, name k))] *)
Fixpoint save_each (dir : string) (name : string → string)
    (ms : list (string * Model)) (fs : FS) : result unit * FS :=
  match ms with
  | [] => (inr tt, fs)
  | (k, model) :: rest =>
      match torch_save model (os_path_join dir (name k)) fs with
      | inl e => (inl e, fs)
      | inr fs1 => save_each dir name rest fs1
      end
  end.

(** The [if hasattr(trainer.updater, 'model'): ... else: ...] statement
    that [__call__] and [finalize] share up to the file names. *)
Definition save_state_dicts (dir : string) (single : string)
    (name : string → string) (u : UpdaterModels) (fs : FS) : result unit * FS :=
  match u with
  | HasModel m =>
      match torch_save m (os_path_join dir single) fs with
      | inl e => (inl e, fs)
      | inr fs1 => (inr tt, fs1)
      end
  | HasModels ms => save_each dir name ms fs
  end.

Definition snapshot_name (k : string) : string := k +:+ "_snapshot_model.params".
Definition latest_name (k : string) : string := k +:+ "_latest_model.params".

(** [SnapshotModel.__call__] *)
Definition SnapshotModel_call (self : SnapshotModel) (w : World)
    : result unit * SnapshotModel * World :=
  let '(fired, trigger1) := trigger_call (sm_trigger self) (trainer w) in
  let self1 := mkSnapshotModel (save_dir self) trigger1 in
  if fired then
    let dir := os_path_join (out (trainer w)) (save_dir self) in
    let '(made, fs1) := os_makedirs dir (fs w) in
    match except_OSError_pass made with
    | inl e => (inl e, self1, set_fs fs1 w)
    | inr _ =>
        let '(r, fs2) :=
          save_state_dicts dir "snapshot_model.params" snapshot_name
                           (updater_models (trainer w)) fs1 in
        (r, self1, set_fs fs2 w)
    end
  else (inr tt, self1, w).

(** [SnapshotModel.finalize] *)
Definition SnapshotModel_finalize (self : SnapshotModel) (w : World)
    : result unit * World :=
  let dir := os_path_join (out (trainer w)) (save_dir self) in
  let '(r, fs1) :=
    save_state_dicts dir "latest_model.params" latest_name
                     (updater_models (trainer w)) (fs w) in
  (r, set_fs fs1 w).

(** ** Extension objects and their methods *)

Inductive ExtensionObj :=
  | ObjExtension (e : Extension)
  | ObjLogReport (e : LogReport)
  | ObjProgressBar (e : ProgressBar)
  | ObjClassifyEvaluater (e : ClassifyEvaluater)
  | ObjMetricEvaluater (e : MetricEvaluater)
  | ObjSnapshotModel (e : SnapshotModel).

Definition class_of (o : ExtensionObj) : ExtensionClass :=
  match o with
  | ObjExtension _ => ClsExtension
  | ObjLogReport _ => ClsLogReport
  | ObjProgressBar _ => ClsProgressBar
  | ObjClassifyEvaluater _ => ClsClassifyEvaluater
  | ObjMetricEvaluater _ => ClsMetricEvaluater
  | ObjSnapshotModel _ => ClsSnapshotModel
  end.

Definition priority (o : ExtensionObj) : Z := class_priority (class_of o).

Definition retag {A} (tag : A → ExtensionObj) (r : result unit * A * World)
    : result unit * ExtensionObj * World :=
  (r.1.1, tag r.1.2, r.2).

(** [extension(trainer)], dispatched on the class of the object. *)
Definition ext_call (o : ExtensionObj) (w : World)
    : result unit * ExtensionObj * World :=
  match o with
  | ObjExtension e => retag ObjExtension (Extension_call e w)
  | ObjLogReport e => retag ObjLogReport (LogReport_call e w)
  | ObjProgressBar e => retag ObjProgressBar (ProgressBar_call e w)
  | ObjClassifyEvaluater e => retag ObjClassifyEvaluater (ClassifyEvaluater_call e w)
  | ObjMetricEvaluater e => retag ObjMetricEvaluater (MetricEvaluater_call e w)
  | ObjSnapshotModel e => retag ObjSnapshotModel (SnapshotModel_call e w)
  end.

(** [extension.finalize(trainer)]: only [ProgressBar] and [SnapshotModel]
    override the base method. *)
Definition ext_finalize (o : ExtensionObj) (w : World) : result unit * World :=
  match o with
  | ObjProgressBar _ => ProgressBar_finalize w
  | ObjSnapshotModel e => SnapshotModel_finalize e w
  | ObjExtension _ | ObjLogReport _ | ObjClassifyEvaluater _
  | ObjMetricEvaluater _ => Extension_finalize w
  end.

(** ** The trainer's schedule *)

(** Modelled from the spec: [chaitorch.training.trainer.Trainer] is not
    part of the sources.  After each update step the trainer invokes every
    registered extension, in descending order of [priority], extensions of
    equal priority in the order of their registration.  [schedule_insert]
    places an extension behind every one that is at least as urgent. *)
Fixpoint schedule_insert (e : ExtensionObj) (l : list ExtensionObj)
    : list ExtensionObj :=
  match l with
  | [] => [e]
  | x :: rest =>
      if bool_decide (priority x < priority e) then e :: x :: rest
      else x :: schedule_insert e rest
  end.

(** Modelled from the spec: the order of one round, built by inserting the
    extensions in the order of their registration. *)
Definition invocation_order (registered : list ExtensionObj)
    : list ExtensionObj :=
  foldl (λ acc e, schedule_insert e acc) [] registered.

(** Modelled from the spec: one round of extension calls, in the given
    order; an exception ends the round.  The value lists the extensions
    after their calls. *)
Fixpoint invoke_all (order : list ExtensionObj) (w : World)
    : result (list ExtensionObj) * World :=
  match order with
  | [] => (inr [], w)
  | o :: rest =>
      match ext_call o w with
      | (inl e, _, w1) => (inl e, w1)
      | (inr _, o1, w1) =>
          match invoke_all rest w1 with
          | (inl e, w2) => (inl e, w2)
          | (inr rest1, w2) => (inr (o1 :: rest1), w2)
          end
      end
  end.

(** Modelled from the spec: the extension calls of one training step. *)
Definition Trainer_invoke_extensions (registered : list ExtensionObj)
    (w : World) : result (list ExtensionObj) * World :=
  invoke_all (invocation_order registered) w.

(** Modelled from the spec: the world in which the [n]-th extension of the
    order is called, which is the one its predecessors left. *)
Definition world_before (order : list ExtensionObj) (n : nat) (w : World)
    : World :=
  (invoke_all (take n order) w).2.

(** ** Auxiliary notions for the properties below *)

(** The value dictionaries that the loss computation returned in the
    successive rounds of the loop of [ClassifyEvaluater.__call__]; the list
    stops at the first round that raises. *)
Fixpoint Classify_values (reporter : Reporter) (loss_fn : LossFn)
    (bs : list Batch) (w : World) : list (gmap string Qc) :=
  match bs with
  | [] => []
  | batch :: rest =>
      match get_model w with
      | inl _ => []
      | inr m =>
          match (loss_fn batch false (Model_eval m)).1 with
          | inl _ => []
          | inr vs =>
              vs :: Classify_values reporter loss_fn rest
                      (Classify_batch reporter loss_fn batch w).2
          end
      end
  end.

(** The key and the formatted value that [record] has for it, if any, are
    no wider than the key's column. *)
Definition cell_fits (record : gmap string pyval) (key : string) : bool :=
  bool_decide (String.length key ≤ column_width key)%nat
  && match record !! key with
     | Some v =>
         bool_decide
           (String.length (if bool_decide (key ∈ ["epoch"; "iteration"])
                           then format_plain v else format_5f v)
            ≤ column_width key)%nat
     | None => true
     end.

(** The step is a quiet one for the extension: its trigger does not fire,
    or, for a [ProgressBar], the iteration count is not a multiple of its
    (non-zero) update interval.  The base class has no quiet steps. *)
Definition ext_quiet (o : ExtensionObj) (w : World) : bool :=
  match o with
  | ObjExtension _ => false
  | ObjLogReport e => negb (trigger_call (lr_trigger e) (trainer w)).1
  | ObjProgressBar e =>
      negb (bool_decide (update_interval e = 0))
      && negb (bool_decide (total_iter (trainer w) `mod` update_interval e = 0))
  | ObjClassifyEvaluater e => negb (trigger_call (ce_trigger e) (trainer w)).1
  | ObjMetricEvaluater e => negb (trigger_call (me_trigger e) (trainer w)).1
  | ObjSnapshotModel e => negb (trigger_call (sm_trigger e) (trainer w)).1
  end.

End Extensions.

(** ** A concrete set of collaborators

    Test doubles on which the embedding can be run: a trigger that answers
    from a script, a network that returns its input, and a triplet loss
    that is the anchor's output, so that a batch [(l, _, _)] reports the
    loss [l]. *)

Inductive ScriptedTrigger :=
  | FireAlways
  | FireNever
  | FireScript (answers : list bool).

Definition scripted_call (s : ScriptedTrigger) (t : Trainer)
    : bool * ScriptedTrigger :=
  match s with
  | FireAlways => (true, FireAlways)
  | FireNever => (false, FireNever)
  | FireScript [] => (false, FireScript [])
  | FireScript (b :: rest) => (b, FireScript rest)
  end.

Definition demo_domain : Domain := {|
  TriggerState := ScriptedTrigger;
  Batch := gmap string Qc;
  Input := Qc;
  Tensor := Qc;
  Embedding := Qc;
  Matrix := list Qc;
  Labels := unit
|}.

Definition demo_json_dump (lg : list (gmap string pyval)) : list string :=
  ["["] ++ map (λ r : gmap string pyval, "{" +:+ pretty (size r) +:+ "}") lg
        ++ ["]"].

Definition demo_format_plain (v : pyval) : string :=
  match v with
  | PyInt n => pretty n
  | PyFloat _ => "x"
  end.

Definition demo_collab : @Collaborators demo_domain := {|
  trigger_call := scripted_call : @TriggerState demo_domain → _;
  json_dump := demo_json_dump;
  format_plain := demo_format_plain;
  format_5f := λ _, "0.00000";
  format_timedelta := λ _, "0:00:00";
  state_dict_bytes := λ p, "params:" +:+ pretty (size p);
  calc_loss := λ (b : gmap string Qc) (g : bool) (m : Model), (inr b, m);
  model_forward := λ (g : bool) (m : Model) (x : Qc), (inr x, m);
  triplet_margin_loss := λ a p n : Qc, a;
  py_round := λ x _, x;
  tensor_rows := λ t : Qc, [t];
  np_reshape := λ (rows : list Qc) (n : nat),
    if bool_decide (length rows = n) then inr rows else inl ValueError;
  recall_at_rank_k_list := λ (_ : list Qc) (_ : unit) (K : list Z),
    map (λ _, Q2Qc 1) K
|}.

Section DemoData.
#[local] Existing Instance demo_domain.
#[local] Existing Instance demo_collab.

Definition demo_model : Model := mkModel 7 true ∅.

(** A trainer after ten iterations, writing below the directory
    [result], which exists and is empty. *)
Definition demo_trainer : Trainer :=
  mkTrainer 1 10 10 (HasModel demo_model) 2 10 (Q2Qc 3) "result"
            {["training/loss" := Q2Qc 2]}.

Definition demo_fs : FS := mkFS ∅ {[ ["result"] ]}.

Definition demo_world : World :=
  mkWorld demo_trainer demo_fs [] true [] (Q2Qc 0) ["aaa"; "bbb"].

(** The same with a log of an earlier interval on disk. *)
Definition demo_world_logged : World :=
  set_fs (mkFS {[ ["result"; "log"] := "[{4}]" ]} {[ ["result"] ]}) demo_world.

Definition demo_log_report (trigger : ScriptedTrigger) : LogReport :=
  mkLogReport (Some ["epoch"; "training/loss"; "eval/loss"; "elapsed_time"])
              trigger "log" Summarizer_new [] true.

(** Two triplet batches whose losses are 1 and 3. *)
Definition demo_loader : DataLoader :=
  mkDataLoader [(Q2Qc 1, Q2Qc 0, Q2Qc 0); (Q2Qc 3, Q2Qc 0, Q2Qc 0)] 2 tt.

Definition demo_metric_evaluater : MetricEvaluater :=
  mkMetricEvaluater demo_loader FireAlways.

Definition demo_classify_evaluater : ClassifyEvaluater :=
  mkClassifyEvaluater [{["loss" := Q2Qc 1]}; {["loss" := Q2Qc 3]}] FireAlways None.

(** A trainer whose output directory is the current directory, and a
    snapshot extension with the default [save_dir]. *)
Definition demo_world_cwd : World :=
  mkWorld (mkTrainer 1 10 10 (HasModel demo_model) 2 10 (Q2Qc 3) "" ∅)
          (mkFS ∅ ∅) [] true [] (Q2Qc 0) ["aaa"; "bbb"].

(** A snapshot extension whose trigger never fires, and one with the
    default [save_dir] whose trigger always fires. *)
Definition demo_snapshot : SnapshotModel := mkSnapshotModel "ckpt" FireNever.

Definition demo_snapshot_default : SnapshotModel := mkSnapshotModel "" FireAlways.

(** The extensions of the sample training script, in registration
    order. *)
Definition demo_extensions : list ExtensionObj :=
  [ObjLogReport (demo_log_report FireAlways);
   ObjProgressBar (mkProgressBar 30 (Q2Qc 0) (Q2Qc 0));
   ObjMetricEvaluater demo_metric_evaluater;
   ObjSnapshotModel demo_snapshot].

(** The checkpoint directory of the sample scripts is a time stamp of the
    form [%y-%m-%d/%H%M%S], two levels deep. *)
Definition demo_snapshot_stamped : SnapshotModel :=
  mkSnapshotModel "24-01-01/120000" FireAlways.

Definition demo_snapshot_firing : SnapshotModel :=
  mkSnapshotModel "ckpt" FireAlways.

(** An updater with two named networks. *)
Definition demo_gen : Model := mkModel 1 true ∅.

Definition demo_dis : Model := mkModel 2 true {["w" := [Q2Qc 1]]}.

Definition demo_models : list (string * Model) :=
  [("gen", demo_gen); ("dis", demo_dis)].

Definition demo_world_models : World :=
  set_trainer (set_updater_models (HasModels demo_models) demo_trainer)
              demo_world.

(** The demo world after the trainer's output directory was removed. *)
Definition demo_world_lost : World :=
  set_fs (mkFS ∅ ∅) demo_world.

(** An evaluator whose loss computation raises. *)
Definition demo_classify_failing : ClassifyEvaluater :=
  mkClassifyEvaluater [{["loss" := Q2Qc 1]}] FireAlways
    (Some (λ (b : gmap string Qc) (g : bool) (m : Model), (inl ValueError, m))).

Definition demo_metric_empty : MetricEvaluater :=
  mkMetricEvaluater (mkDataLoader [] 0 tt) FireAlways.

End DemoData.

(** * Properties *)

Section Theorems.
Context {D : Domain} {C : Collaborators}.

Lemma str_append_assoc (a b c : string) : (a +:+ b) +:+ c = a +:+ (b +:+ c).
Proof.
  induction a as [|x a IH]; [done|].
  change (String x ((a +:+ b) +:+ c) = String x (a +:+ (b +:+ c))).
  by rewrite IH.
Qed.

Lemma str_append_empty_r (a : string) : a +:+ "" = a.
Proof.
  induction a as [|x a IH]; [done|].
  change (String x (a +:+ "") = String x a). by rewrite IH.
Qed.

Lemma rbind_inr {A B} (r : result A) (k : A → result B) (b : B) :
  rbind r k = inr b → ∃ a, r = inr a ∧ k a = inr b.
Proof. destruct r as [e|a]; [done|]. intros Hk. by exists a. Qed.

Lemma fs_open_w_inr name fs fs' :
  fs_open_w name fs = inr fs' →
  ∃ p, resolve name = inr p ∧ files fs' = <[p := ""]> (files fs)
       ∧ dirs fs' = dirs fs.
Proof.
  unfold fs_open_w. intros (p & Hp & Hk)%rbind_inr. exists p. split; [done|].
  destruct (fs_isdir fs p); [done|].
  destruct (fs_isdir fs (parent p)); [|done].
  by injection Hk as <-.
Qed.

Lemma exec_ops_app ops1 ops2 fs :
  exec_ops (ops1 ++ ops2) fs =
  match exec_ops ops1 fs with
  | (inl e, fs1) => (inl e, fs1)
  | (inr _, fs1) => exec_ops ops2 fs1
  end.
Proof.
  revert fs. induction ops1 as [|op ops1 IH]; intros fs; [done|].
  simpl. destruct (exec_op op fs) as [e|fs']; [done|]. apply IH.
Qed.

(** Writing chunk after chunk to an open file cannot fail and extends the
    file, and only that file. *)
Lemma exec_writes name p chunks fs acc :
  resolve name = inr p → files fs !! p = Some acc →
  ∃ fs', exec_ops (map (OpWrite name) chunks) fs = (inr tt, fs')
         ∧ files fs' = <[p := acc +:+ str_concat chunks]> (files fs)
         ∧ dirs fs' = dirs fs.
Proof.
  intros Hp. revert fs acc.
  induction chunks as [|c chunks IH]; intros fs acc Hacc.
  - exists fs. simpl. rewrite str_append_empty_r. by rewrite insert_id.
  - simpl. unfold fs_write. rewrite Hp. simpl. rewrite Hacc.
    edestruct (IH (mkFS (<[p:=acc +:+ c]> (files fs)) (dirs fs)) (acc +:+ c))
      as (fs' & Hex & Hf & Hd); [by rewrite /= lookup_insert_eq|].
    exists fs'. split; [done|]. split; [|done].
    rewrite Hf /= insert_insert_eq. f_equal.
    change (str_concat (c :: chunks)) with (c +:+ str_concat chunks).
    by rewrite str_append_assoc.
Qed.

(** Staging: opening the staging file and writing any number of chunks
    changes no other file. *)
Lemma staging_frame name chunks fs q :
  resolve name ≠ inr q →
  files (exec_ops (OpOpen name :: map (OpWrite name) chunks) fs).2 !! q
  = files fs !! q.
Proof.
  intros Hq. simpl. destruct (fs_open_w name fs) as [e|fs1] eqn:Hopen; [done|].
  apply fs_open_w_inr in Hopen as (p & Hp & Hf & Hd).
  destruct (exec_writes name p chunks fs1 "" Hp) as (fs2 & -> & Hf2 & _).
  { by rewrite Hf lookup_insert_eq. }
  simpl. rewrite Hf2 Hf. rewrite !lookup_insert_ne; [done|congruence..].
Qed.

Lemma staging_content name chunks fs r fs2 :
  exec_ops (OpOpen name :: map (OpWrite name) chunks) fs = (inr r, fs2) →
  ∃ p, resolve name = inr p
  ∧ files fs2 !! p = Some (str_concat chunks) ∧ dirs fs2 = dirs fs
  ∧ ∀ q, q ≠ p → files fs2 !! q = files fs !! q.
Proof.
  simpl. destruct (fs_open_w name fs) as [e|fs1] eqn:Hopen; [done|].
  apply fs_open_w_inr in Hopen as (p & Hp & Hf & Hd). intros Hex.
  destruct (exec_writes name p chunks fs1 "" Hp) as (fs2' & Hex' & Hf2 & Hd2).
  { by rewrite Hf lookup_insert_eq. }
  rewrite Hex' in Hex. injection Hex as _ <-.
  exists p. split; [done|]. rewrite Hf2 Hf.
  split; [by rewrite lookup_insert_eq|].
  split; [congruence|]. intros q Hq. by rewrite !lookup_insert_ne.
Qed.

(** What a move leaves at the destination path [d]. *)
Lemma shutil_move_dst src dst s d fs fs' :
  resolve src = inr s → resolve dst = inr d →
  shutil_move src dst fs = inr fs' →
  dirs fs' = dirs fs
  ∧ (fs_isdir fs d = false → files fs' !! d = files fs !! s)
  ∧ (s ≠ d → fs_isdir fs d = true → files fs' !! d = files fs !! d).
Proof.
  intros Hs Hd. unfold shutil_move. rewrite Hs Hd /=.
  destruct (fs_isdir fs d && fs_exists fs (move_target fs s d)); [done|].
  unfold fs_rename. destruct (files fs !! s) as [c|] eqn:Hc; [|done].
  destruct (fs_isdir fs (move_target fs s d)); [done|].
  destruct (fs_isdir fs (parent (move_target fs s d))); [|done].
  intros [= <-]. simpl. unfold move_target. split; [done|].
  split; intros; destruct (fs_isdir fs d); try done.
  - by rewrite lookup_insert_eq.
  - rewrite lookup_insert_ne.
    + by rewrite lookup_delete_ne.
    + intros Heq. apply (f_equal length) in Heq. rewrite length_app /= in Heq. lia.
Qed.

Lemma mkdtemp_inr dir names fs tempd fs1 rest :
  mkdtemp dir names fs = (inr (tempd, fs1), rest) →
  files fs1 = files fs
  ∧ ∃ name p, name ∈ names ∧ tempd = os_path_join dir ("tmp" +:+ name)
      ∧ resolve tempd = inr p ∧ dirs fs1 = {[p]} ∪ dirs fs.
Proof.
  induction names as [|name names IH]; [done|]. simpl.
  destruct (resolve (os_path_join dir ("tmp" +:+ name))) as [e|p] eqn:Hres; simpl.
  - destruct e as [| | | | | | | |[]|]; try done.
    intros (? & n & q & ? & ?)%IH. split; [done|]. exists n, q. split; [by right|done].
  - unfold fs_mkdir. destruct (fs_exists fs p).
    + intros (? & n & q & ? & ?)%IH. split; [done|]. exists n, q.
      split; [by right|done].
    + destruct (fs_isdir fs (parent p)).
      * intros [= <- <- _]. split; [done|]. exists name, p. split; [by left|done].
      * unfold missing_parent. by destruct (fs_isfile fs (parent p)).
Qed.

(** *** Joining and resolving path names *)

Lemma str_cons_append c (a b : string) : String c a +:+ b = String c (a +:+ b).
Proof. done. Qed.

Lemma split_go_slash cur (a b : string) :
  split_go cur (a +:+ String slash b) = split_go cur a ++ split_go "" b.
Proof.
  revert cur. induction a as [|c a IH]; intros cur.
  - change ("" +:+ String slash b) with (String slash b). by simpl.
  - rewrite str_cons_append. simpl. destruct (bool_decide (c = slash)).
    + by rewrite IH.
    + apply IH.
Qed.

Lemma ends_with_slash_inv (a : string) :
  ends_with_slash a = true → ∃ a', a = a' +:+ String slash "".
Proof.
  induction a as [|c a IH]; [done|]. simpl. destruct a as [|c' a].
  - intros ->%bool_decide_eq_true. by exists "".
  - intros [a' ->]%IH. by exists (String c a').
Qed.

Lemma components_slash (a b : string) :
  components (a +:+ String slash b) = components a ++ components b.
Proof. unfold components. by rewrite split_go_slash filter_app. Qed.

Lemma components_after_slash (a b : string) :
  ends_with_slash a = true → components (a +:+ b) = components a ++ components b.
Proof.
  intros [a' ->]%ends_with_slash_inv.
  rewrite str_append_assoc. change (String slash "" +:+ b) with (String slash b).
  rewrite !components_slash. change (components "") with (@nil string).
  by rewrite app_nil_r.
Qed.

Lemma resolve_append (a x : string) :
  a ≠ "" →
  resolve (a +:+ x)
  = inr ((if starts_with_slash a then ["/"] else []) ++ components (a +:+ x)).
Proof. destruct a as [|c a]; [done|]. intros _. by rewrite str_cons_append. Qed.

(** Joining a relative name to a non-empty path name appends the
    components of the name. *)
Lemma resolve_join (a b : string) (p : path) :
  a ≠ "" → starts_with_slash b = false → resolve a = inr p →
  resolve (os_path_join a b) = inr (p ++ components b).
Proof.
  intros Ha Hb Hp. unfold os_path_join. rewrite Hb.
  rewrite (bool_decide_eq_false_2 (a = "")); [|done]. simpl.
  rewrite -(str_append_empty_r a) resolve_append in Hp; [|done].
  rewrite str_append_empty_r in Hp. injection Hp as <-.
  destruct (ends_with_slash a) eqn:Hends.
  - rewrite resolve_append; [|done].
    by rewrite components_after_slash; [rewrite app_assoc|].
  - rewrite resolve_append; [|done].
    change ("/" +:+ b) with (String slash b).
    by rewrite components_slash app_assoc.
Qed.

Lemma os_path_join_nonempty (a b : string) : b ≠ "" → os_path_join a b ≠ "".
Proof.
  intros Hb. unfold os_path_join. destruct (starts_with_slash b); [done|].
  destruct a as [|c a]; [done|].
  by destruct (bool_decide (String c a = "") || ends_with_slash (String c a)).
Qed.

(** The staging file lies inside the temporary directory. *)
Lemma staging_inside_tempdir (dir name : string) (p : path) :
  resolve (os_path_join dir ("tmp" +:+ name)) = inr p →
  resolve (os_path_join (os_path_join dir ("tmp" +:+ name)) "log.json")
  = inr (p ++ ["log.json"]).
Proof.
  intros Hp. by apply resolve_join; [apply os_path_join_nonempty| |].
Qed.

Lemma clear_of_tempdirs_elem (dir : string) (names : list string) (dst : path)
    (name : string) (p : path) :
  clear_of_tempdirs dir names dst = true → name ∈ names →
  resolve (os_path_join dir ("tmp" +:+ name)) = inr p →
  ¬ p `prefix_of` dst.
Proof.
  unfold clear_of_tempdirs. rewrite forallb_forall. intros Hclear Hname Hp.
  specialize (Hclear name (proj1 (list_elem_of_In _ _) Hname)).
  rewrite Hp in Hclear. by apply negb_true_iff, bool_decide_eq_false in Hclear.
Qed.

(** A persist that raises leaves every file outside the temporary
    directory as it was. *)
Lemma LogReport_persist_inl (self : LogReport) (w : World) (dst : path) e :
  (LogReport_persist self w).1 = inl e →
  clear_of_tempdirs (out (trainer w)) (rng w) dst = true →
  files (fs (LogReport_persist self w).2) !! dst = files (fs w) !! dst.
Proof.
  unfold LogReport_persist. intros Hraise Hclear.
  destruct (mkdtemp (out (trainer w)) (rng w) (fs w)) as [[e0|[tempd fs1]] rest]
    eqn:Hmk; [done|].
  apply mkdtemp_inr in Hmk as (Hfiles & name & p & Hname & -> & Hp & Hdirs).
  pose proof (clear_of_tempdirs_elem _ _ _ _ _ Hclear Hname Hp) as Hout.
  pose proof (staging_inside_tempdir _ _ _ Hp) as Hstaged.
  set (staged := os_path_join _ "log.json") in *.
  set (new_path := os_path_join _ (log_name self)) in *.
  assert (resolve staged ≠ inr dst) as Hne.
  { rewrite Hstaged. intros [= <-]. apply Hout. by apply prefix_app_r. }
  revert Hraise.
  change (persist_ops staged new_path (json_dump (log self)))
    with ((OpOpen staged :: map (OpWrite staged) (json_dump (log self)))
            ++ [OpMove staged new_path]).
  rewrite exec_ops_app.
  pose proof (staging_frame staged (json_dump (log self)) fs1 dst Hne) as Hframe.
  destruct (exec_ops (OpOpen staged :: map (OpWrite staged) (json_dump (log self))) fs1)
    as [[e1|r] fs2] eqn:Hstage; cbn [snd] in Hframe.
  - intros _. simpl. unfold tempdir_cleanup. rewrite Hp. simpl.
    rewrite map_lookup_filter. rewrite Hframe Hfiles.
    destruct (files (fs w) !! dst); [|done]. simpl. by rewrite option_guard_True.
  - cbn [exec_ops exec_op].
    destruct (shutil_move staged new_path fs2) as [e1|fs3] eqn:Hmove; [|done].
    intros _. simpl. unfold tempdir_cleanup. rewrite Hp. simpl.
    rewrite map_lookup_filter. rewrite Hframe Hfiles.
    destruct (files (fs w) !! dst); [|done]. simpl. by rewrite option_guard_True.
Qed.

(** C1: when the process crashes after the temporary directory was made
    and at most the staging file was opened and written (that is, before the
    move), the destination log file is what it was before the attempt;
    whatever the crash point, the destination holds either its previous
    content or the complete serialisation of the log, never a part of it;
    and when the attempt ends with an exception instead, the destination is
    what it was.  The destination is assumed to lie outside the temporary
    directory, whose name is drawn at random. *)
Theorem LogReport_persist_crash_keeps_log (self : LogReport) (w : World)
    (k : nat) (dst : path) :
  resolve (os_path_join (out (trainer w)) (log_name self)) = inr dst →
  clear_of_tempdirs (out (trainer w)) (rng w) dst = true →
  let crashed := LogReport_persist_crash self k w in
  ((k ≤ S (length (json_dump (log self))))%nat →
     files crashed !! dst = files (fs w) !! dst)
  ∧ (files crashed !! dst = files (fs w) !! dst
     ∨ files crashed !! dst = Some (str_concat (json_dump (log self))))
  ∧ (∀ e, (LogReport_persist self w).1 = inl e →
       files (fs (LogReport_persist self w).2) !! dst = files (fs w) !! dst).
Proof.
  intros Hdst Hclear. cbv zeta.
  split; [|split; [|by intros e He; apply (LogReport_persist_inl self w dst e)]];
    unfold LogReport_persist_crash;
    (destruct (mkdtemp (out (trainer w)) (rng w) (fs w))
       as [[e|[tempd fs1]] rest] eqn:Hmk; [by auto|]);
    apply mkdtemp_inr in Hmk as (Hfiles & name & p0 & Hname & -> & Hp0 & _);
    pose proof (clear_of_tempdirs_elem _ _ _ _ _ Hclear Hname Hp0) as Hout;
    pose proof (staging_inside_tempdir _ _ _ Hp0) as Hstaged;
    set (staged := os_path_join _ "log.json") in *;
    set (new_path := os_path_join _ (log_name self)) in *;
    set (chunks := json_dump (log self));
    (assert (resolve staged ≠ inr dst) as Hfresh
       by (rewrite Hstaged; intros [= <-]; apply Hout; by apply prefix_app_r));
    rewrite -Hfiles;
    (assert ((k ≤ S (length chunks))%nat →
             files (exec_ops (take k (persist_ops staged new_path chunks)) fs1).2
               !! dst = files fs1 !! dst) as Hbefore
       by (intros Hk; destruct k as [|n]; [done|];
           unfold persist_ops; rewrite firstn_cons take_app_le;
           [rewrite firstn_map; by apply staging_frame
           |rewrite length_map; lia])).
  - done.
  - destruct (decide (k ≤ S (length chunks))%nat) as [Hk|Hk]; [by left; auto|].
    rewrite take_ge; [|unfold persist_ops; rewrite /= length_app length_map /=; lia].
    change (persist_ops staged new_path chunks)
      with ((OpOpen staged :: map (OpWrite staged) chunks)
              ++ [OpMove staged new_path]).
    rewrite exec_ops_app.
    pose proof (staging_frame staged chunks fs1 dst Hfresh) as Hframe.
    destruct (exec_ops (OpOpen staged :: map (OpWrite staged) chunks) fs1)
      as [[e|r] fs2] eqn:Hstage; [by left|].
    apply staging_content in Hstage as (p & Hp & Hcontent & _).
    cbn [snd] in Hframe. cbn [exec_ops exec_op].
    destruct (shutil_move staged new_path fs2) as [e|fs3] eqn:Hmove; [by left|].
    simpl. destruct (shutil_move_dst _ _ _ _ _ _ Hp Hdst Hmove) as (_ & Hfile & Hdir).
    destruct (fs_isdir fs2 dst) eqn:Hisdir.
    + left. rewrite Hdir; [apply Hframe|congruence|done].
    + right. by rewrite Hfile.
Qed.


(** ** Summarizer and key selection *)

Lemma dict_select_go ks (obs d : gmap string Qc) k :
  foldl (λ d k, match obs !! k with
                | Some v => <[k := v]> d
                | None => d
                end) d ks !! k
  = if decide (k ∈ ks)
    then match obs !! k with Some v => Some v | None => d !! k end
    else d !! k.
Proof.
  revert d. induction ks as [|a ks IH]; intros d.
  - simpl. by destruct (decide (k ∈ [])) as [?%elem_of_nil|].
  - simpl. rewrite IH. destruct (decide (k = a)) as [->|Hne].
    + rewrite (decide_True (P := a ∈ a :: ks)); [|by left].
      destruct (obs !! a) as [v|] eqn:Ha.
      * by rewrite lookup_insert_eq; destruct (decide (a ∈ ks)).
      * by destruct (decide (a ∈ ks)).
    + assert ((match obs !! a with
               | Some v => <[a:=v]> d
               | None => d
               end) !! k = d !! k) as ->.
      { destruct (obs !! a); [by rewrite lookup_insert_ne|done]. }
      destruct (decide (k ∈ ks)) as [Hin|Hin].
      * rewrite decide_True; [done|by right].
      * rewrite decide_False; [done|]. by intros [?|?]%elem_of_cons.
Qed.

(** The selected dictionary holds exactly the requested keys that the
    observation has. *)
Lemma dict_select_lookup ks (obs : gmap string Qc) k :
  dict_select ks obs !! k = if decide (k ∈ ks) then obs !! k else None.
Proof.
  unfold dict_select. rewrite dict_select_go lookup_empty.
  destruct (decide (k ∈ ks)); [|done]. by destruct (obs !! k).
Qed.

Lemma Summarizer_add_lookup s (d : gmap string Qc) k :
  summaries (Summarizer_add s d) !! k
  = summary_step (summaries s !! k) (d !! k).
Proof.
  unfold Summarizer_add. simpl. rewrite lookup_merge.
  by destruct (summaries s !! k), (d !! k).
Qed.

Lemma Summarizer_fold_lookup (ds : list (gmap string Qc)) s k :
  summaries (foldl Summarizer_add s ds) !! k
  = foldl summary_step (summaries s !! k)
          (map (λ d : gmap string Qc, d !! k) ds).
Proof.
  revert s. induction ds as [|d ds IH]; intros s; [done|].
  simpl. by rewrite IH Summarizer_add_lookup.
Qed.

Lemma summary_steps_Some (os : list (option Qc)) x n :
  foldl summary_step (Some (x, n)) os
  = Some (foldl Qcplus x (omap id os), (n + length (omap id os))%nat).
Proof.
  revert x n. induction os as [|[y|] os IH]; intros x n; simpl.
  - by rewrite Nat.add_0_r.
  - rewrite IH. simpl. do 2 f_equal. by rewrite Nat.add_succ_r.
  - apply IH.
Qed.

Lemma summary_steps_None (os : list (option Qc)) :
  foldl summary_step None os
  = match omap id os with
    | [] => None
    | vs => Some (Qc_sum vs, length vs)
    end.
Proof.
  induction os as [|[y|] os IH]; simpl; [done| |done].
  by rewrite summary_steps_Some.
Qed.

(** [compute_mean] after folding a sequence of observations into a fresh
    summarizer is the per-key simple average. *)
Lemma Summarizer_interval_mean (ds : list (gmap string Qc)) k :
  Summarizer_compute_mean (foldl Summarizer_add Summarizer_new ds) !! k
  = interval_mean ds k.
Proof.
  unfold Summarizer_compute_mean, interval_mean, interval_values.
  rewrite lookup_fmap Summarizer_fold_lookup /= lookup_empty summary_steps_None.
  assert (omap id (map (λ d : gmap string Qc, d !! k) ds)
          = omap (λ d : gmap string Qc, d !! k) ds) as ->.
  { induction ds as [|d ds IH]; [done|].
    cbn. destruct (d !! k); cbn; by f_equal. }
  by destruct (omap _ ds).
Qed.

Lemma make_record_lookup (means : gmap string Qc) t key :
  key ∉ ["epoch"; "iteration"; "elapsed_time"] →
  make_record means t !! key = PyFloat <$> means !! key.
Proof.
  intros Hkey. unfold make_record.
  rewrite !lookup_insert_ne; [by rewrite lookup_fmap|..];
    intros <-; apply Hkey; set_solver.
Qed.

Lemma make_record_counters (means : gmap string Qc) t :
  make_record means t !! "epoch" = Some (PyInt (updater_epoch t))
  ∧ make_record means t !! "iteration" = Some (PyInt (total_iter t))
  ∧ make_record means t !! "elapsed_time" = Some (PyFloat (elapsed_time t)).
Proof.
  unfold make_record. split; [|split].
  - rewrite lookup_insert_ne; [|done]. rewrite lookup_insert_ne; [|done].
    by rewrite lookup_insert_eq.
  - rewrite lookup_insert_ne; [|done]. by rewrite lookup_insert_eq.
  - by rewrite lookup_insert_eq.
Qed.

(** ** LogReport *)

Lemma LogReport_call_quiet (self : LogReport) (w : World) :
  (trigger_call (lr_trigger self) (trainer w)).1 = false →
  LogReport_call self w
  = (inr tt,
     mkLogReport (keys self) (trigger_call (lr_trigger self) (trainer w)).2
                 (log_name self)
                 (Summarizer_add (summarizer self) (LogReport_folded self w))
                 (log self) (_print self),
     w).
Proof.
  unfold LogReport_call, LogReport_folded.
  destruct (trigger_call (lr_trigger self) (trainer w)) as [fired ts].
  simpl. intros ->. by destruct (keys self).
Qed.

(** C9: a call on a step where the trigger does not fire succeeds and
    leaves the world as it was (so the log file on disk, the trainer's
    observation mapping and the console are unchanged) and the in-memory log
    and the configuration as they were; the summarizer has absorbed the
    step's observation.  (The trigger keeps its own state.) *)
Theorem LogReport_quiet_call_frame (self : LogReport) (w : World) :
  (trigger_call (lr_trigger self) (trainer w)).1 = false →
  (LogReport_call self w).1.1 = inr tt
  ∧ (LogReport_call self w).2 = w
  ∧ fs (LogReport_call self w).2 = fs w
  ∧ observation (trainer (LogReport_call self w).2) = observation (trainer w)
  ∧ log (LogReport_call self w).1.2 = log self
  ∧ keys (LogReport_call self w).1.2 = keys self
  ∧ log_name (LogReport_call self w).1.2 = log_name self
  ∧ _print (LogReport_call self w).1.2 = _print self
  ∧ summarizer (LogReport_call self w).1.2
    = Summarizer_add (summarizer self) (LogReport_folded self w).
Proof. intros Hquiet. by rewrite LogReport_call_quiet. Qed.

Lemma LogReport_quiet_calls_state (ws : list World) (self self_n : LogReport) :
  LogReport_quiet_calls self ws = Some self_n →
  summarizer self_n
  = foldl Summarizer_add (summarizer self) (map (LogReport_folded self) ws)
  ∧ log self_n = log self ∧ keys self_n = keys self
  ∧ log_name self_n = log_name self ∧ _print self_n = _print self.
Proof.
  revert self. induction ws as [|w ws IH]; intros self; simpl.
  - by intros [= <-].
  - destruct (trigger_call (lr_trigger self) (trainer w)).1 eqn:Hfire; [done|].
    rewrite LogReport_call_quiet; [|done]. simpl.
    intros (-> & -> & -> & -> & ->)%IH. simpl. split; [f_equal|done].
Qed.

(** A persist that returns normally has put the complete serialisation of
    the log at the destination. *)
Lemma LogReport_persist_inr (self : LogReport) (w w1 : World) (dst : path) :
  LogReport_persist self w = (inr tt, w1) →
  resolve (os_path_join (out (trainer w)) (log_name self)) = inr dst →
  fs_isdir (fs w) dst = false →
  clear_of_tempdirs (out (trainer w)) (rng w) dst = true →
  files (fs w1) !! dst = Some (str_concat (json_dump (log self))).
Proof.
  unfold LogReport_persist. intros Hpersist Hdst Hnodir Hclear.
  destruct (mkdtemp (out (trainer w)) (rng w) (fs w)) as [[e|[tempd fs1]] rest]
    eqn:Hmk; [done|].
  apply mkdtemp_inr in Hmk as (Hfiles & name & p & Hname & -> & Hp & Hdirs).
  pose proof (clear_of_tempdirs_elem _ _ _ _ _ Hclear Hname Hp) as Hout.
  set (staged := os_path_join _ "log.json") in *.
  set (new_path := os_path_join _ (log_name self)) in *.
  revert Hpersist.
  change (persist_ops staged new_path (json_dump (log self)))
    with ((OpOpen staged :: map (OpWrite staged) (json_dump (log self)))
            ++ [OpMove staged new_path]).
  rewrite exec_ops_app.
  destruct (exec_ops (OpOpen staged :: map (OpWrite staged) (json_dump (log self))) fs1)
    as [[e|r] fs2] eqn:Hstage; [done|].
  apply staging_content in Hstage as (sp & Hsp & Hcontent & Hd2 & _).
  cbn [exec_ops exec_op].
  destruct (shutil_move staged new_path fs2) as [e|fs3] eqn:Hmove; [done|].
  intros [= Hw1]. subst w1. simpl.
  destruct (shutil_move_dst _ _ _ _ _ _ Hsp Hdst Hmove) as (_ & Hfile & _).
  unfold tempdir_cleanup. rewrite Hp. simpl.
  apply map_lookup_filter_Some. split; [|done].
  rewrite Hfile; [done|].
  unfold fs_isdir in *. apply bool_decide_eq_false.
  apply bool_decide_eq_false in Hnodir. rewrite Hd2 Hdirs.
  intros [->|[->|[->%elem_of_singleton|?]%elem_of_union]]; [tauto..| |tauto].
  by apply Hout.
Qed.

Lemma filtered_observation_lookup (ks : list string) (obs : gmap string Qc)
    (key : string) :
  filtered_observation (Some ks) obs !! key
  = if decide (key ∈ ks) then obs !! key else None.
Proof.
  unfold filtered_observation. rewrite map_lookup_filter.
  destruct (obs !! key) as [v|]; simpl; [|by destruct (decide (key ∈ ks))].
  destruct (decide (key ∈ ks)).
  - by rewrite option_guard_True.
  - by rewrite option_guard_False.
Qed.

(** The dictionary comprehension of [__call__] is the filter of the
    specification. *)
Lemma LogReport_folded_filtered (self : LogReport) (w : World) :
  LogReport_folded self w
  = filtered_observation (keys self) (observation (trainer w)).
Proof.
  unfold LogReport_folded. destruct (keys self) as [ks|]; [|done].
  apply map_eq. intros key. rewrite filtered_observation_lookup.
  unfold dict_select. rewrite dict_select_go lookup_empty.
  destruct (decide (key ∈ ks)); [|done].
  by destruct (observation (trainer w) !! key).
Qed.

Lemma interval_mean_map_ext {A} (f g : A → gmap string Qc) (l : list A)
    (key : string) :
  (∀ a, f a !! key = g a !! key) →
  interval_mean (map f l) key = interval_mean (map g l) key.
Proof.
  intros Hfg. unfold interval_mean, interval_values.
  assert (omap (λ d : gmap string Qc, d !! key) (map f l)
          = omap (λ d : gmap string Qc, d !! key) (map g l)) as ->; [|done].
  induction l as [|a l IH]; [done|].
  cbn. rewrite Hfg. destruct (g a !! key); by rewrite IH.
Qed.

Lemma interval_mean_None {A} (f : A → gmap string Qc) (l : list A)
    (key : string) :
  (∀ a, f a !! key = None) → interval_mean (map f l) key = None.
Proof.
  intros Hf. unfold interval_mean, interval_values.
  assert (omap (λ d : gmap string Qc, d !! key) (map f l) = []) as ->; [|done].
  induction l as [|a l IH]; [done|]. cbn. by rewrite Hf.
Qed.

(** C2: after steps on which the trigger stayed quiet, a call on which it
    fires and that returns normally appends one record.  For every key but
    [epoch], [iteration] and [elapsed_time] the record holds the simple
    average of the values that the filtered observations since the previous
    fire had for that key, and no entry when there was none; the filter is
    the one of the specification, not the comprehension of the code.  So
    with a key set the record has no entry for a key outside the set, and
    for a key of the set the average of the values that the trainer's
    observations had for it; without a key set, the average for every key.
    The three other keys hold the trainer's counters and elapsed time.  The
    summarizer is fresh again, and the destination file holds the
    serialisation of the whole log. *)
Theorem LogReport_fire_appends_interval_means (self self_n : LogReport)
    (ws : list World) (w : World) :
  summarizer self = Summarizer_new →
  LogReport_quiet_calls self ws = Some self_n →
  (trigger_call (lr_trigger self_n) (trainer w)).1 = true →
  (LogReport_call self_n w).1.1 = inr tt →
  ∃ record,
    log (LogReport_call self_n w).1.2 = log self ++ [record]
    ∧ (∀ key, key ∉ ["epoch"; "iteration"; "elapsed_time"] →
         record !! key
         = PyFloat <$> interval_mean
                         (map (λ w', filtered_observation
                                       (keys self) (observation (trainer w')))
                              (ws ++ [w])) key)
    ∧ (∀ ks key, keys self = Some ks → key ∉ ks →
         key ∉ ["epoch"; "iteration"; "elapsed_time"] →
         record !! key = None)
    ∧ (∀ key, (∀ ks, keys self = Some ks → key ∈ ks) →
         key ∉ ["epoch"; "iteration"; "elapsed_time"] →
         record !! key
         = PyFloat <$> interval_mean
                         (map (λ w', observation (trainer w')) (ws ++ [w])) key)
    ∧ record !! "epoch" = Some (PyInt (updater_epoch (trainer w)))
    ∧ record !! "iteration" = Some (PyInt (total_iter (trainer w)))
    ∧ record !! "elapsed_time" = Some (PyFloat (elapsed_time (trainer w)))
    ∧ summarizer (LogReport_call self_n w).1.2 = Summarizer_new
    ∧ (∀ dst,
         resolve (os_path_join (out (trainer w)) (log_name self)) = inr dst →
         fs_isdir (fs w) dst = false →
         clear_of_tempdirs (out (trainer w)) (rng w) dst = true →
         files (fs (LogReport_call self_n w).2) !! dst
         = Some (str_concat (json_dump (log (LogReport_call self_n w).1.2)))).
Proof.
  intros Hfresh (Hsum & Hlog & Hkeys & Hname & Hprint)%LogReport_quiet_calls_state
         Hfire.
  unfold LogReport_call.
  destruct (trigger_call (lr_trigger self_n) (trainer w)) as [fired ts].
  simpl in Hfire. subst fired.
  set (s1 := match keys self_n with
             | Some ks => Summarizer_add (summarizer self_n)
                            (dict_select ks (observation (trainer w)))
             | None => Summarizer_add (summarizer self_n) (observation (trainer w))
             end).
  assert (s1 = foldl Summarizer_add Summarizer_new
                     (map (LogReport_folded self) (ws ++ [w]))) as Hs1.
  { rewrite map_app foldl_app /= -Hfresh -Hsum. unfold s1, LogReport_folded.
    rewrite Hkeys. by destruct (keys self). }
  set (record := make_record (Summarizer_compute_mean s1) (trainer w)).
  set (self2 := mkLogReport _ _ _ _ (log self_n ++ [record]) _).
  destruct (LogReport_persist self2 w) as [[e|[]] w1] eqn:Hpersist; [done|].
  destruct (if _print self2 then LogReport_printout self2 w1 else (inr (), w1))
    as [[e|[]] w2] eqn:Hout; [done|].
  intros _. simpl. exists record. rewrite Hlog.
  split; [done|].
  assert (∀ key, key ∉ ["epoch"; "iteration"; "elapsed_time"] →
            record !! key
            = PyFloat <$> interval_mean
                            (map (λ w', filtered_observation
                                          (keys self) (observation (trainer w')))
                                 (ws ++ [w])) key) as Hmeans.
  { intros key Hkey. unfold record.
    rewrite make_record_lookup; [|done].
    rewrite Hs1 Summarizer_interval_mean. f_equal.
    apply interval_mean_map_ext. intros w'. by rewrite LogReport_folded_filtered. }
  split; [done|]. split.
  { intros ks key Hks Hout' Hkey. rewrite Hmeans; [|done].
    rewrite interval_mean_None; [done|].
    intros w'. rewrite Hks filtered_observation_lookup.
    by destruct (decide (key ∈ ks)). }
  split.
  { intros key Hin Hkey. rewrite Hmeans; [|done]. f_equal.
    apply interval_mean_map_ext. intros w'.
    destruct (keys self) as [ks|] eqn:Hks; [|done].
    rewrite filtered_observation_lookup.
    by destruct (decide (key ∈ ks)) as [|[]]; [|apply Hin]. }
  destruct (make_record_counters (Summarizer_compute_mean s1) (trainer w))
    as (Hepoch & Hiter & Htime).
  do 3 (split; [done|]). split; [done|].
  intros dst Hdst Hnodir Hclear.
  assert (fs w2 = fs w1) as ->.
  { destruct (_print self2); [|by injection Hout as <-].
    unfold LogReport_printout in Hout. destruct (keys self2); [|done].
    destruct (printout_cells (log self2) l); [done|]. by injection Hout as <-. }
  rewrite -Hlog. apply (LogReport_persist_inr self2 w); by rewrite ?Hname.
Qed.

(** C8: for the record a fired call has just appended, the console line is
    written without an exception and has one cell per configured key, in
    order; the cell of a key the record lacks is blank padding of the key's
    column width, the cell of a key it has is the formatted value padded to
    that width. *)
Theorem LogReport_printout_blank_padding (ks : list string)
    (trigger : TriggerState) (name : string) (s : Summarizer)
    (lg : list (gmap string pyval)) (pr : bool) (means : gmap string Qc)
    (t : Trainer) (w : World) :
  LogReport_printout
    (mkLogReport (Some ks) trigger name s (lg ++ [make_record means t]) pr) w
  = (inr tt,
     stdout_write
       (esc +:+ "[2K" +:+ esc +:+ "[G"
            +:+ str_concat (map (printout_cell (make_record means t)) ks)
            +:+ newline) w)
  ∧ (∀ key, make_record means t !! key = None →
       printout_cell (make_record means t) key
       = str_repeat " "%char (column_width key))
  ∧ (∀ key v, make_record means t !! key = Some v →
       printout_cell (make_record means t) key
       = ljust (column_width key)
               (if bool_decide (key ∈ ["epoch"; "iteration"])
                then format_plain v else format_5f v)).
Proof.
  split; [|split].
  - unfold LogReport_printout. simpl.
    assert (printout_cells (lg ++ [make_record means t]) ks
            = inr (map (printout_cell (make_record means t)) ks)) as ->; [|done].
    induction ks as [|key ks IH]; [done|].
    simpl. rewrite last_snoc IH. done.
  - intros key Hnone. unfold printout_cell, column_width. rewrite Hnone.
    rewrite bool_decide_eq_false_2; [done|].
    destruct (make_record_counters means t) as (Hepoch & Hiter & _).
    intros [->|[->|[]%elem_of_nil]%elem_of_cons]%elem_of_cons; congruence.
  - intros key v Hsome. unfold printout_cell, column_width. rewrite Hsome.
    by destruct (bool_decide (key ∈ ["epoch"; "iteration"])).
Qed.

(** ** Evaluators *)

(** Reporting and scoping touch neither the model nor the gradient mode. *)
Lemma report_frame (vs : gmap string Qc) (o : option nat) (w : World) :
  updater_models (trainer (report vs o w)) = updater_models (trainer w)
  ∧ grad_enabled (report vs o w) = grad_enabled w.
Proof. unfold report. by destruct (reporters w). Qed.

Lemma scope_exit_frame (dest : gmap string Qc) (w : World) :
  updater_models (trainer (scope_exit dest w).2) = updater_models (trainer w)
  ∧ grad_enabled (scope_exit dest w).2 = grad_enabled w.
Proof. unfold scope_exit. by destruct (reporters w). Qed.

Lemma report_scores_frame (o : nat) (K : list Z) (scores : list Qc) (w : World) :
  updater_models (trainer (report_scores o K scores w)) = updater_models (trainer w)
  ∧ grad_enabled (report_scores o K scores w) = grad_enabled w.
Proof.
  unfold report_scores. generalize (zip K scores). intros l. revert w.
  induction l as [|ks l IH]; intros w; [done|]. simpl.
  destruct (IH (report {["R@" +:+ pretty ks.1 := ks.2]} (Some o) w)) as [-> ->].
  apply report_frame.
Qed.

Lemma get_model_frame (w w' : World) :
  updater_models (trainer w') = updater_models (trainer w) →
  get_model w' = get_model w.
Proof. unfold get_model. by intros ->. Qed.

(** One round of the classification loop that ends normally leaves the
    model in training mode; its parameters are those the loss computation
    left. *)
Lemma Classify_batch_model (reporter : Reporter) (loss_fn : LossFn)
    (batch : Batch) (w w1 : World) (m : Model) (obs : gmap string Qc) :
  get_model w = inr m →
  Classify_batch reporter loss_fn batch w = (inr obs, w1) →
  get_model w1 = inr (Model_train (loss_fn batch false (Model_eval m)).2)
  ∧ grad_enabled w1 = grad_enabled w.
Proof.
  intros Hm. unfold Classify_batch.
  assert (get_model (set_grad_enabled false (scope_enter reporter w)) = inr m)
    as -> by done.
  change (grad_enabled (set_model (Model_eval m)
            (set_grad_enabled false (scope_enter reporter w)))) with false.
  destruct (loss_fn batch false (Model_eval m)) as [[e|vs] m1] eqn:Hloss.
  - match goal with |- context [scope_exit ∅ ?w0] =>
      by destruct (scope_exit ∅ w0) end.
  - match goal with |- context [scope_exit ∅ ?w0] =>
      pose proof (scope_exit_frame ∅ w0) as [Hmod Hgrad];
      destruct (scope_exit ∅ w0) as [obs' w5] end.
    intros [= _ <-]. simpl in *. split.
    + unfold get_model. by rewrite Hmod.
    + by rewrite Hgrad.
Qed.

Lemma Classify_loop_model (reporter : Reporter) (loss_fn : LossFn)
    (bs : list Batch) (s s1 : Summarizer) (w w1 : World) (m : Model) :
  (∀ batch m0, training m0 = false →
     params (loss_fn batch false m0).2 = params m0) →
  get_model w = inr m →
  Classify_loop reporter loss_fn bs s w = (inr s1, w1) →
  ∃ m1, get_model w1 = inr m1 ∧ params m1 = params m
        ∧ grad_enabled w1 = grad_enabled w
        ∧ (bs ≠ [] ∨ training m = true → training m1 = true).
Proof.
  intros Hpure. revert s w m.
  induction bs as [|batch bs IH]; intros s w m Hm; simpl.
  - intros [= _ <-]. exists m. repeat split; [done|]. by intros [|].
  - destruct (Classify_batch reporter loss_fn batch w) as [[e|obs] w0] eqn:Hb;
      [done|].
    destruct (Classify_batch_model _ _ _ _ _ _ _ Hm Hb) as [Hm0 Hg0].
    intros (m1 & Hm1 & Hp1 & Hg1 & Ht1)%(IH _ _ _ Hm0).
    exists m1. split; [done|]. split; [|split].
    + rewrite Hp1. simpl. by rewrite Hpure.
    + congruence.
    + intros _. apply Ht1. by right.
Qed.

(** A forward pass in evaluation mode with gradients disabled. *)
Lemma forward_model (x : Input) (w w1 : World) (m : Model) (r : result Tensor) :
  (∀ x m0, training m0 = false →
     params (model_forward false m0 x).2 = params m0
     ∧ training (model_forward false m0 x).2 = false) →
  get_model w = inr m → training m = false → grad_enabled w = false →
  forward x w = (r, w1) →
  ∃ m1, get_model w1 = inr m1 ∧ params m1 = params m ∧ training m1 = false
        ∧ grad_enabled w1 = false.
Proof.
  intros Hpure Hm Ht Hg. unfold forward. rewrite Hm Hg.
  destruct (Hpure x m Ht) as [Hp Ht1].
  destruct (model_forward false m x) as [r1 m1]. intros [= _ <-].
  by exists m1.
Qed.

Lemma Metric_batch_model (reporter : Reporter) (o : nat)
    (batch : Input * Input * Input) (w w1 : World) (m : Model)
    (r : result (gmap string Qc * list Embedding)) :
  (∀ x m0, training m0 = false →
     params (model_forward false m0 x).2 = params m0
     ∧ training (model_forward false m0 x).2 = false) →
  get_model w = inr m → training m = false →
  Metric_batch reporter o batch w = (r, w1) →
  ∃ m1, get_model w1 = inr m1 ∧ params m1 = params m ∧ training m1 = false
        ∧ grad_enabled w1 = grad_enabled w.
Proof.
  intros Hpure Hm Ht. unfold Metric_batch.
  set (w0 := set_grad_enabled false (scope_enter reporter w)).
  assert (∃ m1, get_model (Metric_batch_body o batch w0).2 = inr m1
                ∧ params m1 = params m ∧ training m1 = false) as (m1 & Hm1 & Hp1 & Ht1).
  { unfold Metric_batch_body. destruct batch as [[x_as x_ps] x_ns].
    destruct (forward x_as w0) as [ra wa] eqn:Ha.
    apply (forward_model _ _ _ m) in Ha as (ma & Hma & Hpa & Hta & Hga); [|done..].
    destruct ra as [e|a_out]; [by exists ma|].
    destruct (forward x_ps wa) as [rp wp] eqn:Hpp.
    apply (forward_model _ _ _ ma) in Hpp as (mp & Hmp & Hpp' & Htp & Hgp); [|done..].
    destruct rp as [e|p_out]; [exists mp; by rewrite Hpp'|].
    destruct (forward x_ns wp) as [rn wn] eqn:Hn.
    apply (forward_model _ _ _ mp) in Hn as (mn & Hmn & Hpn & Htn & Hgn); [|done..].
    destruct rn as [e|n_out]; [exists mn; by rewrite Hpn Hpp'|].
    exists mn. simpl. split; [|by rewrite Hpn Hpp'].
    erewrite get_model_frame; [done|]. apply report_frame. }
  destruct (Metric_batch_body o batch w0) as [rb w2].
  match goal with |- context [scope_exit ∅ ?w3] =>
    pose proof (scope_exit_frame ∅ w3) as [Hmod Hgrad];
    destruct (scope_exit ∅ w3) as [obs w4] end.
  simpl in *. intros Hres. exists m1.
  assert (w1 = w4) as -> by (by destruct rb; injection Hres).
  split; [by erewrite get_model_frame|]. by rewrite Hgrad.
Qed.

Lemma Metric_loop_model (reporter : Reporter) (o : nat)
    (bs : list (Input * Input * Input)) (s : Summarizer)
    (embs : list Embedding) (obs : option (gmap string Qc)) (w w1 : World)
    (m : Model) r :
  (∀ x m0, training m0 = false →
     params (model_forward false m0 x).2 = params m0
     ∧ training (model_forward false m0 x).2 = false) →
  get_model w = inr m → training m = false →
  Metric_loop reporter o bs s embs obs w = (r, w1) →
  ∃ m1, get_model w1 = inr m1 ∧ params m1 = params m
        ∧ grad_enabled w1 = grad_enabled w.
Proof.
  intros Hpure. revert s embs obs w m.
  induction bs as [|batch bs IH]; intros s embs obs w m Hm Ht; simpl.
  - intros [= _ <-]. by exists m.
  - destruct (Metric_batch reporter o batch w) as [rb w0] eqn:Hb.
    destruct (Metric_batch_model _ _ _ _ _ _ _ Hpure Hm Ht Hb)
      as (m0 & Hm0 & Hp0 & Ht0 & Hg0).
    destruct rb as [e|[obs0 rows]].
    + intros [= _ <-]. by exists m0.
    + intros (m1 & Hm1 & Hp1 & Hg1)%(IH _ _ _ _ _ Hm0 Ht0).
      exists m1. split; [done|]. split; congruence.
Qed.

(** C5: when an evaluator's trigger fires and the call returns normally,
    the model is in training mode afterwards, its parameters are the ones it
    had before, and the gradient mode is as before.  The loss computation
    (for [ClassifyEvaluater]) and the forward pass (for [MetricEvaluater])
    are only assumed not to touch the parameters when they run in evaluation
    mode with gradients disabled, which is how the extensions run them.
    With an empty data loader [ClassifyEvaluater] never switches modes, so
    the model must have been in training mode on entry. *)
Theorem evaluators_restore_training_mode :
  (∀ (self : ClassifyEvaluater) (w : World) (m : Model),
     (trigger_call (ce_trigger self) (trainer w)).1 = true →
     get_model w = inr m →
     (∀ batch m0, training m0 = false →
        params (from_option id calc_loss (eval_fn self) batch false m0).2
        = params m0) →
     (ce_data_loader self ≠ [] ∨ training m = true) →
     (ClassifyEvaluater_call self w).1.1 = inr tt →
     ∃ m1, get_model (ClassifyEvaluater_call self w).2 = inr m1
           ∧ training m1 = true ∧ params m1 = params m
           ∧ grad_enabled (ClassifyEvaluater_call self w).2 = grad_enabled w)
  ∧ (∀ (self : MetricEvaluater) (w : World) (m : Model),
       (trigger_call (me_trigger self) (trainer w)).1 = true →
       get_model w = inr m →
       (∀ x m0, training m0 = false →
          params (model_forward false m0 x).2 = params m0
          ∧ training (model_forward false m0 x).2 = false) →
       (MetricEvaluater_call self w).1.1 = inr tt →
       ∃ m1, get_model (MetricEvaluater_call self w).2 = inr m1
             ∧ training m1 = true ∧ params m1 = params m
             ∧ grad_enabled (MetricEvaluater_call self w).2 = grad_enabled w).
Proof.
  split.
  - intros self w m Hfire Hm Hpure Hentry. unfold ClassifyEvaluater_call.
    destruct (trigger_call (ce_trigger self) (trainer w)) as [fired ts].
    simpl in Hfire. subst fired. rewrite Hm.
    destruct (Classify_loop _ _ _ _ _) as [[e|s1] w1] eqn:Hloop; [done|].
    apply (Classify_loop_model _ _ _ _ _ _ _ m) in Hloop
      as (m1 & Hm1 & Hp1 & Hg1 & Ht1); [|done..].
    intros _. simpl. exists m1.
    destruct (report_frame (Summarizer_compute_mean s1) None w1) as [Hmod Hgrad].
    split; [by erewrite get_model_frame|]. split; [by apply Ht1|].
    split; [done|]. congruence.
  - intros self w m Hfire Hm Hpure. unfold MetricEvaluater_call.
    destruct (trigger_call (me_trigger self) (trainer w)) as [fired ts].
    simpl in Hfire. subst fired. rewrite Hm.
    destruct (Metric_loop _ _ _ _ _ _ _) as [[e|[[s1 embs] obs]] w1] eqn:Hloop;
      [done|].
    apply (Metric_loop_model _ _ _ _ _ _ _ _ (Model_eval m)) in Hloop
      as (m1 & Hm1 & Hp1 & Hg1); [|done..].
    rewrite Hm1.
    destruct (Metric_scores _ _ _ _ _ _ _) as [[e|s2] w3] eqn:Hscores; [done|].
    intros _. simpl. exists (Model_train m1).
    assert (updater_models (trainer w3) = HasModel (Model_train m1)
            ∧ grad_enabled w3 = grad_enabled w1) as [Hmod3 Hgrad3].
    { unfold Metric_scores in Hscores. destruct obs as [o|]; [|done].
      destruct (np_reshape _ _) as [e|matrix]; [done|].
      injection Hscores as _ <-.
      match goal with |- context [scope_exit o ?w0] =>
        destruct (scope_exit_frame o w0) as [-> ->] end.
      match goal with |- context [report_scores ?a ?b ?c ?w0] =>
        destruct (report_scores_frame a b c w0) as [-> ->] end.
      done. }
    destruct (report_frame (Summarizer_compute_mean s2) None w3) as [Hmod Hgrad].
    split; [|split; [done|split; [done|]]].
    + unfold get_model. by rewrite Hmod Hmod3.
    + rewrite Hgrad Hgrad3 Hg1. done.
Qed.

(** *** The summarizer of [MetricEvaluater] *)

(** The block after the batch loop adds the dictionary bound to
    [observation] once more. *)
Lemma Metric_scores_adds_again (self : MetricEvaluater) (reporter : Reporter)
    (o : nat) (s s1 : Summarizer) (embs : list Embedding)
    (obs : gmap string Qc) (w w1 : World) :
  Metric_scores self reporter o s embs (Some obs) w = (inr s1, w1) →
  s1 = Summarizer_add s obs.
Proof.
  unfold Metric_scores. destruct (np_reshape _ _) as [e|matrix]; [done|].
  by intros [= <- _].
Qed.

(** After a non-empty batch loop, [observation] is the dictionary that the
    last round has just added to the summarizer. *)
Lemma Metric_loop_last (reporter : Reporter) (o : nat)
    (bs : list (Input * Input * Input)) (s s' : Summarizer)
    (embs embs' : list Embedding) (obs obs' : option (gmap string Qc))
    (w w1 : World) :
  Metric_loop reporter o bs s embs obs w = (inr (s', embs', obs'), w1) →
  bs ≠ [] →
  ∃ s0 last, obs' = Some last ∧ s' = Summarizer_add s0 last.
Proof.
  revert s embs obs w. induction bs as [|batch bs IH]; intros s embs obs w;
    [done|]. simpl.
  destruct (Metric_batch reporter o batch w) as [[e|[obs0 rows]] w0]; [done|].
  destruct bs as [|batch' bs].
  - simpl. intros [= <- _ <- _] _. by exists s, obs0.
  - intros Hloop _. by apply IH in Hloop.
Qed.

(** Every fired call that returns normally reports the means of a
    summarizer to which the last batch's observation was added twice. *)
Lemma MetricEvaluater_reports_last_twice (self : MetricEvaluater) (w : World) :
  (trigger_call (me_trigger self) (trainer w)).1 = true →
  (MetricEvaluater_call self w).1.1 = inr tt →
  ∃ s0 last w3,
    (MetricEvaluater_call self w).2
    = report (Summarizer_compute_mean
                (Summarizer_add (Summarizer_add s0 last) last)) None w3.
Proof.
  intros Hfire. unfold MetricEvaluater_call.
  destruct (trigger_call (me_trigger self) (trainer w)) as [fired ts].
  simpl in Hfire. subst fired.
  destruct (get_model w) as [e|m]; [done|].
  destruct (Metric_loop _ _ _ _ _ _ _) as [[e|[[s1 embs] obs]] w1] eqn:Hloop;
    [done|].
  destruct (Metric_scores _ _ _ _ _ _ _) as [[e|s2] w3] eqn:Hscores; [done|].
  intros _. simpl.
  destruct obs as [last|]; [|done].
  apply Metric_scores_adds_again in Hscores as ->.
  destruct (batches (me_data_loader self)) as [|b bs] eqn:Hbs;
    [by simpl in Hloop|].
  apply Metric_loop_last in Hloop as (s0 & last' & [= <-] & ->); [|done].
  by exists s0, last, w3.
Qed.

Lemma Summarizer_add_twice_lookup (s : Summarizer) (d : gmap string Qc) k v :
  d !! k = Some v →
  summaries (Summarizer_add (Summarizer_add s d) d) !! k
  = match summaries s !! k with
    | Some (x, n) => Some ((x + v + v)%Qc, S (S n))
    | None => Some ((Q2Qc 0 + v + v)%Qc, 2%nat)
    end.
Proof.
  intros Hv. rewrite !Summarizer_add_lookup Hv.
  by destruct (summaries s !! k) as [[x n]|].
Qed.

(** ** SnapshotModel *)

Lemma fs_mkdir_raises_OSError p fs e :
  fs_mkdir p fs = inl e → ∃ k, e = OSError k.
Proof.
  unfold fs_mkdir, missing_parent. destruct (fs_exists fs p).
  - intros [= <-]. by eexists.
  - destruct (fs_isdir fs (parent p)); [done|].
    destruct (fs_isfile fs (parent p)); intros [= <-]; by eexists.
Qed.

Lemma makedirs_go_raises_OSError fuel p fs e :
  (makedirs_go fuel p fs).1 = inl e → ∃ k, e = OSError k.
Proof.
  revert p fs e. induction fuel as [|fuel IH]; intros p fs e; simpl.
  - destruct (fs_mkdir p fs) as [e0|fs1] eqn:Hmk; [|done].
    intros [= <-]. by eapply fs_mkdir_raises_OSError.
  - destruct (bool_decide (parent p ≠ []) && negb (fs_exists fs (parent p))).
    + pose proof (IH (parent p) fs) as Hhead.
      destruct (makedirs_go fuel (parent p) fs) as [[e0|[]] fs0]; simpl in *.
      * destruct (Hhead e0 eq_refl) as [k ->].
        destruct k; simpl; try (intros [= <-]; by eexists).
        destruct (fs_mkdir p fs0) as [e1|fs1] eqn:Hmk; [|done].
        intros [= <-]. by eapply fs_mkdir_raises_OSError.
      * destruct (fs_mkdir p fs0) as [e1|fs1] eqn:Hmk; [|done].
        intros [= <-]. by eapply fs_mkdir_raises_OSError.
    + simpl. destruct (fs_mkdir p fs) as [e1|fs1] eqn:Hmk; [|done].
      intros [= <-]. by eapply fs_mkdir_raises_OSError.
Qed.

(** Whatever [os.makedirs] raises is an [OSError]. *)
Lemma os_makedirs_raises_OSError name fs e :
  (os_makedirs name fs).1 = inl e → ∃ k, e = OSError k.
Proof.
  unfold os_makedirs, resolve. destruct (bool_decide (name = "")); simpl.
  - intros [= <-]. by eexists.
  - apply makedirs_go_raises_OSError.
Qed.

(** C6: in a triggered save every exception of the directory
    creation is swallowed, the directory-already-exists error like any
    other, and the save goes on with the file system that the attempt has
    left.  The call then ends as the writing of the parameter files ends: an
    exception raised there is the result of the call. *)
Theorem SnapshotModel_call_swallows_makedirs_errors (self : SnapshotModel)
    (w : World) :
  (trigger_call (sm_trigger self) (trainer w)).1 = true →
  let dir := os_path_join (out (trainer w)) (save_dir self) in
  let written :=
    save_state_dicts dir "snapshot_model.params" snapshot_name
                     (updater_models (trainer w))
                     (os_makedirs dir (fs w)).2 in
  (SnapshotModel_call self w).1.1 = written.1
  ∧ fs (SnapshotModel_call self w).2 = written.2
  ∧ (∀ e, written.1 = inl e → (SnapshotModel_call self w).1.1 = inl e)
  ∧ (∀ e, (os_makedirs dir (fs w)).1 = inl e → written.1 = inr tt →
       (SnapshotModel_call self w).1.1 = inr tt).
Proof.
  intros Hfire dir written.
  assert ((SnapshotModel_call self w).1.1 = written.1
          ∧ fs (SnapshotModel_call self w).2 = written.2) as [Hr Hfs].
  { unfold SnapshotModel_call, written.
    destruct (trigger_call (sm_trigger self) (trainer w)) as [fired ts].
    simpl in Hfire. subst fired. fold dir.
    pose proof (os_makedirs_raises_OSError dir (fs w)) as Hos.
    destruct (os_makedirs dir (fs w)) as [[e|[]] fs1]; simpl in *.
    - destruct (Hos e eq_refl) as [k ->]. simpl.
      by destruct (save_state_dicts _ _ _ _ fs1).
    - by destruct (save_state_dicts _ _ _ _ fs1). }
  split; [done|]. split; [done|]. split; intros; congruence.
Qed.

Lemma str_length_append (a b : string) :
  String.length (a +:+ b) = (String.length a + String.length b)%nat.
Proof.
  induction a as [|c a IH]; [done|].
  change (S (String.length (a +:+ b)) = S (String.length a + String.length b)).
  by rewrite IH.
Qed.

(** The file names of [finalize] never coincide with those of [__call__]. *)
Lemma latest_names_differ :
  "latest_model.params" ≠ "snapshot_model.params"
  ∧ ∀ k k', latest_name k ≠ snapshot_name k'.
Proof.
  split; [done|]. intros k k' Heq. unfold latest_name, snapshot_name in Heq.
  pose proof (f_equal String.length Heq) as Hlen.
  rewrite !str_length_append /= in Hlen.
  pose proof (String.append_correct2 k "_latest_model.params" 5) as H1.
  pose proof (String.append_correct2 k' "_snapshot_model.params" 7) as H2.
  rewrite Heq in H1.
  replace (5 + String.length k)%nat with (7 + String.length k')%nat in H1 by lia.
  rewrite -H2 in H1. by vm_compute in H1.
Qed.

(** When the directory is there, [finalize] writes the single model's
    parameters under [latest_model.params]. *)
Lemma SnapshotModel_finalize_writes (self : SnapshotModel) (w : World)
    (m : Model) (p : path) :
  updater_models (trainer w) = HasModel m →
  resolve (os_path_join (os_path_join (out (trainer w)) (save_dir self))
                        "latest_model.params") = inr p →
  fs_isdir (fs w) p = false → fs_isdir (fs w) (parent p) = true →
  (SnapshotModel_finalize self w).1 = inr tt
  ∧ files (fs (SnapshotModel_finalize self w).2) !! p
    = Some (state_dict_bytes (params m)).
Proof.
  intros Hm Hp Hfile Hdir.
  unfold SnapshotModel_finalize. cbv zeta. rewrite Hm.
  unfold save_state_dicts, torch_save, fs_save, fs_open_w.
  rewrite Hp /= Hfile Hdir /=. unfold fs_write.
  rewrite Hp /= lookup_insert_eq /=. by rewrite lookup_insert_eq.
Qed.

(** Without the directory, [finalize] raises and writes nothing. *)
Lemma SnapshotModel_finalize_raises (self : SnapshotModel) (w : World)
    (m : Model) (p : path) :
  updater_models (trainer w) = HasModel m →
  resolve (os_path_join (os_path_join (out (trainer w)) (save_dir self))
                        "latest_model.params") = inr p →
  fs_isdir (fs w) p = false → fs_isdir (fs w) (parent p) = false →
  (SnapshotModel_finalize self w).1 = inl (missing_parent (fs w) p)
  ∧ fs (SnapshotModel_finalize self w).2 = fs w.
Proof.
  intros Hm Hp Hfile Hdir.
  unfold SnapshotModel_finalize. cbv zeta. rewrite Hm.
  unfold save_state_dicts, torch_save, fs_save, fs_open_w.
  by rewrite Hp /= Hfile Hdir /=.
Qed.

(** ** Extension base class *)

(** C10: the base [__call__] raises [NotImplementedError] for every
    trainer and changes nothing, also when it is reached through the
    dispatch on an extension object; the base [finalize] returns normally
    and changes nothing, and that is what [finalize] does for every
    extension whose class does not override it. *)
Theorem Extension_base_methods (self : Extension) (w : World) :
  Extension_call self w = (inl NotImplementedError, self, w)
  ∧ ext_call (ObjExtension self) w
    = (inl NotImplementedError, ObjExtension self, w)
  ∧ Extension_finalize w = (inr tt, w)
  ∧ (∀ o, class_of o ∉ [ClsProgressBar; ClsSnapshotModel] →
       ext_finalize o w = (inr tt, w)).
Proof.
  repeat split. intros o Ho.
  destruct o; try done; exfalso; apply Ho; simpl; set_solver.
Qed.

(** ** The schedule *)

Lemma schedule_insert_Permutation e l : schedule_insert e l ≡ₚ e :: l.
Proof.
  induction l as [|x l IH]; [done|]. simpl.
  destruct (bool_decide (priority x < priority e)); [done|].
  rewrite IH. apply Permutation_swap.
Qed.

Lemma schedule_insert_sorted e l :
  StronglySorted (λ a b, priority b ≤ priority a) l →
  StronglySorted (λ a b, priority b ≤ priority a) (schedule_insert e l).
Proof.
  induction 1 as [|x l Hl IH Hx]; simpl.
  - repeat constructor.
  - destruct (bool_decide (priority x < priority e)) eqn:Hlt.
    + apply bool_decide_eq_true in Hlt. constructor; [by constructor|].
      constructor; [lia|]. eapply Forall_impl; [exact Hx|].
      intros y Hy. simpl in *. lia.
    + apply bool_decide_eq_false in Hlt. constructor; [done|].
      rewrite schedule_insert_Permutation. constructor; [lia|done].
Qed.

Lemma filter_priority_none (l : list ExtensionObj) p :
  Forall (λ o, priority o ≠ p) l → filter (λ o, priority o = p) l = [].
Proof.
  induction 1 as [|x l Hx Hl IH]; [done|]. by rewrite filter_cons_False.
Qed.

(** Inserting keeps the order among the extensions of each priority and
    puts the new one last among its equals. *)
Lemma schedule_insert_filter e l p :
  StronglySorted (λ a b, priority b ≤ priority a) l →
  filter (λ o, priority o = p) (schedule_insert e l)
  = filter (λ o, priority o = p) l ++ filter (λ o, priority o = p) [e].
Proof.
  induction 1 as [|x l Hl IH Hx]; simpl; [done|].
  destruct (bool_decide (priority x < priority e)) eqn:Hlt.
  - apply bool_decide_eq_true in Hlt.
    rewrite (filter_cons _ e). rewrite (filter_cons _ e []) filter_nil.
    destruct (decide (priority e = p)) as [Hp|Hp]; [|by rewrite app_nil_r].
    assert (filter (λ o, priority o = p) (x :: l) = []) as ->; [|done].
    apply filter_priority_none. constructor; [lia|].
    eapply Forall_impl; [exact Hx|]. intros y Hy. simpl in *. lia.
  - rewrite !(filter_cons _ x) IH. by destruct (decide (priority x = p)).
Qed.

Lemma schedule_fold acc l :
  StronglySorted (λ a b, priority b ≤ priority a) acc →
  foldl (λ acc e, schedule_insert e acc) acc l ≡ₚ acc ++ l
  ∧ StronglySorted (λ a b, priority b ≤ priority a) (foldl (λ acc e, schedule_insert e acc) acc l)
  ∧ ∀ p, filter (λ o, priority o = p) (foldl (λ acc e, schedule_insert e acc) acc l)
         = filter (λ o, priority o = p) acc ++ filter (λ o, priority o = p) l.
Proof.
  revert acc. induction l as [|e l IH]; intros acc Hacc; simpl.
  - rewrite app_nil_r. split; [done|]. split; [done|]. intros p.
    by rewrite filter_nil app_nil_r.
  - destruct (IH (schedule_insert e acc)) as (Hperm & Hsorted & Hstable);
      [by apply schedule_insert_sorted|].
    split; [|split; [done|]].
    + rewrite Hperm schedule_insert_Permutation.
      by rewrite -Permutation_middle.
    + intros p. rewrite Hstable schedule_insert_filter; [|done].
      rewrite -app_assoc. f_equal. by rewrite -filter_app.
Qed.

Lemma invoke_all_app l1 l2 w :
  invoke_all (l1 ++ l2) w
  = match invoke_all l1 w with
    | (inl e, w1) => (inl e, w1)
    | (inr os1, w1) =>
        match invoke_all l2 w1 with
        | (inl e, w2) => (inl e, w2)
        | (inr os2, w2) => (inr (os1 ++ os2), w2)
        end
    end.
Proof.
  revert w. induction l1 as [|o l1 IH]; intros w; simpl.
  - by destruct (invoke_all l2 w) as [[e|os2] w2].
  - destruct (ext_call o w) as [[[e|r] o1] w1]; [done|].
    rewrite IH. destruct (invoke_all l1 w1) as [[e|os1] w2]; [done|].
    by destruct (invoke_all l2 w2) as [[e|os2] w3].
Qed.

(** C7: the order in which the trainer invokes the registered extensions
    is a rearrangement of the registered ones in which no extension comes
    before one of strictly higher priority, and extensions of equal priority
    keep their registration order; each extension is called in the world
    that the calls of the extensions before it have left. *)
Theorem Trainer_invocation_order_spec (registered : list ExtensionObj) :
  invocation_order registered ≡ₚ registered
  ∧ StronglySorted (λ a b, priority b ≤ priority a) (invocation_order registered)
  ∧ (∀ p, filter (λ o, priority o = p) (invocation_order registered)
          = filter (λ o, priority o = p) registered)
  ∧ (∀ (w wn : World) (n : nat) (o : ExtensionObj) (os : list ExtensionObj),
       invocation_order registered !! n = Some o →
       invoke_all (take n (invocation_order registered)) w = (inr os, wn) →
       (invoke_all (take (S n) (invocation_order registered)) w).2
       = (ext_call o wn).2).
Proof.
  destruct (schedule_fold [] registered) as (Hperm & Hsorted & Hstable);
    [constructor|].
  split; [done|]. split; [done|]. split; [done|].
  intros w wn n o os Hn Hpre.
  rewrite (take_S_r _ _ _ Hn) invoke_all_app Hpre. simpl.
  by destruct (ext_call o wn) as [[[e|r] o1] w1].
Qed.

(** * Further properties *)

(** ** Directories and checkpoint files *)

Lemma fs_mkdir_inr p fs fs' :
  fs_mkdir p fs = inr fs' →
  fs_exists fs p = false ∧ fs_isdir fs (parent p) = true
  ∧ files fs' = files fs ∧ dirs fs' = {[p]} ∪ dirs fs.
Proof.
  unfold fs_mkdir. destruct (fs_exists fs p); [done|].
  destruct (fs_isdir fs (parent p)); [by intros [= <-]|].
  unfold missing_parent. by destruct (fs_isfile fs (parent p)).
Qed.

Lemma fs_isdir_mono fs fs' p :
  dirs fs ⊆ dirs fs' → fs_isdir fs p = true → fs_isdir fs' p = true.
Proof.
  unfold fs_isdir. intros Hsub Hp%bool_decide_eq_true.
  apply bool_decide_eq_true. set_solver.
Qed.

(** [os.makedirs] never changes a file and never removes a directory,
    whether it raises or not. *)
Lemma makedirs_go_frame fuel p fs :
  files (makedirs_go fuel p fs).2 = files fs
  ∧ dirs fs ⊆ dirs (makedirs_go fuel p fs).2.
Proof.
  revert p fs. induction fuel as [|fuel IH]; intros p fs; simpl.
  - destruct (fs_mkdir p fs) as [e|fs1] eqn:Hmk; [done|].
    apply fs_mkdir_inr in Hmk as (_ & _ & Hf & Hd). simpl. rewrite Hf Hd.
    split; [done|set_solver].
  - assert (∃ r fs1, (if bool_decide (parent p ≠ [])
                         && negb (fs_exists fs (parent p))
                      then match makedirs_go fuel (parent p) fs with
                           | (inl (OSError FileExistsError), fs0) => (inr (), fs0)
                           | other => other
                           end
                      else (inr (), fs)) = (r, fs1)
              ∧ files fs1 = files fs ∧ dirs fs ⊆ dirs fs1)
      as (r & fs1 & -> & Hf1 & Hd1).
    { destruct (bool_decide (parent p ≠ []) && negb (fs_exists fs (parent p)));
        [|by eexists _, _].
      destruct (IH (parent p) fs) as [Hf Hd].
      destruct (makedirs_go fuel (parent p) fs) as [[e|[]] fs0]; simpl in *;
        [|by eexists _, _].
      destruct e as [| | | | | | | |[]|]; by eexists _, _. }
    destruct r as [e|[]]; [done|].
    destruct (fs_mkdir p fs1) as [e|fs2] eqn:Hmk; [done|].
    apply fs_mkdir_inr in Hmk as (_ & _ & Hf2 & Hd2). simpl.
    split; [congruence|]. rewrite Hd2. set_solver.
Qed.

Lemma os_makedirs_frame name fs :
  files (os_makedirs name fs).2 = files fs
  ∧ dirs fs ⊆ dirs (os_makedirs name fs).2.
Proof.
  unfold os_makedirs. destruct (resolve name) as [e|p]; [done|].
  apply makedirs_go_frame.
Qed.

Lemma chain_free_spec fs base rest i :
  chain_free fs base rest = true → (0 < i ≤ length rest)%nat →
  fs_exists fs (base ++ take i rest) = false.
Proof.
  unfold chain_free. rewrite forallb_forall. intros Hfree Hi.
  apply negb_true_iff, Hfree, in_seq. lia.
Qed.

Lemma chain_free_snoc fs base rest x :
  chain_free fs base (rest ++ [x]) = true → chain_free fs base rest = true.
Proof.
  intros Hfree. unfold chain_free. apply forallb_forall. intros i Hi%in_seq.
  apply negb_true_iff.
  rewrite -(take_app_le rest [x]); [|lia].
  apply chain_free_spec; [done|]. rewrite length_app /=. lia.
Qed.

(** A directory that [os.makedirs] adds is the requested one or one of its
    ancestors. *)
Lemma makedirs_go_new_dirs fuel p fs q :
  q ∈ dirs (makedirs_go fuel p fs).2 → q ∈ dirs fs ∨ q `prefix_of` p.
Proof.
  revert p fs q. induction fuel as [|fuel IH]; intros p fs q; simpl.
  - destruct (fs_mkdir p fs) as [e|fs1] eqn:Hmk; [by left|].
    apply fs_mkdir_inr in Hmk as (_ & _ & _ & Hd). simpl. rewrite Hd.
    intros [->%elem_of_singleton|?]%elem_of_union; [by right|by left].
  - assert (∃ r fs1, (if bool_decide (parent p ≠ [])
                         && negb (fs_exists fs (parent p))
                      then match makedirs_go fuel (parent p) fs with
                           | (inl (OSError FileExistsError), fs0) => (inr (), fs0)
                           | other => other
                           end
                      else (inr (), fs)) = (r, fs1)
              ∧ ∀ q, q ∈ dirs fs1 → q ∈ dirs fs ∨ q `prefix_of` p)
      as (r & fs1 & -> & Hnew).
    { destruct (bool_decide (parent p ≠ []) && negb (fs_exists fs (parent p)));
        [|eexists _, _; split; [done|by left]].
      pose proof (IH (parent p) fs) as Hhead.
      assert (parent p `prefix_of` p) as Hpre.
      { unfold parent. destruct (decide (p = [])) as [->|Hp]; [done|].
        rewrite {2}(app_removelast_last "" Hp). by apply prefix_app_r. }
      destruct (makedirs_go fuel (parent p) fs) as [[e|[]] fs0]; simpl in *.
      - destruct e as [| | | | | | | |[]|]; eexists _, _; (split; [done|]);
          intros q' [?|?]%Hhead; try (by left); right; by etrans.
      - eexists _, _; (split; [done|]).
        intros q' [?|?]%Hhead; [by left|right; by etrans]. }
    destruct r as [e|[]]; [apply Hnew|].
    destruct (fs_mkdir p fs1) as [e|fs2] eqn:Hmk; [apply Hnew|].
    apply fs_mkdir_inr in Hmk as (_ & _ & _ & Hd). simpl. rewrite Hd.
    intros [->%elem_of_singleton|?]%elem_of_union; [by right|by apply Hnew].
Qed.

Lemma not_prefix_of_snoc (p : path) (x : string) : ¬ (p ++ [x]) `prefix_of` p.
Proof.
  intros [k Hk]. apply (f_equal length) in Hk.
  rewrite !length_app /= in Hk. lia.
Qed.

(** With enough fuel, [os.makedirs] creates the missing chain below an
    existing directory. *)
Lemma makedirs_go_creates rest :
  ∀ base fs fuel,
    rest ≠ [] → fs_isdir fs base = true → chain_free fs base rest = true →
    (length rest ≤ S fuel)%nat →
    (makedirs_go fuel (base ++ rest) fs).1 = inr tt
    ∧ fs_isdir (makedirs_go fuel (base ++ rest) fs).2 (base ++ rest) = true.
Proof.
  induction rest as [|x r IH] using rev_ind; [done|].
  intros base fs fuel _ Hbase Hfree Hfuel.
  assert (fs_exists fs (base ++ r ++ [x]) = false) as Hleaf.
  { rewrite -(take_ge (r ++ [x]) (length (r ++ [x]))); [|done].
    apply chain_free_spec; [done|]. rewrite length_app /=. lia. }
  assert (parent (base ++ r ++ [x]) = base ++ r) as Hparent.
  { unfold parent. by rewrite app_assoc removelast_last. }
  assert (∀ fs1, files fs1 = files fs → fs_isdir fs1 (base ++ r) = true →
            (∀ q, q ∈ dirs fs1 → q ∈ dirs fs ∨ q `prefix_of` (base ++ r)) →
            ∃ fs2, fs_mkdir (base ++ r ++ [x]) fs1 = inr fs2
                   ∧ fs_isdir fs2 (base ++ r ++ [x]) = true) as Hmkdir.
  { intros fs1 Hf1 Hd1 Hnew. unfold fs_mkdir. rewrite Hparent Hd1.
    assert (fs_exists fs1 (base ++ r ++ [x]) = false) as ->.
    { unfold fs_exists, fs_isdir, fs_isfile in *. rewrite Hf1.
      apply orb_false_iff in Hleaf as [Hdir%bool_decide_eq_false Hfile].
      rewrite Hfile orb_false_r. apply bool_decide_eq_false.
      intros [?|[?|Hin]]; [tauto..|].
      apply Hnew in Hin as [?|Hpre]; [tauto|].
      rewrite app_assoc in Hpre. by apply not_prefix_of_snoc in Hpre. }
    eexists. split; [done|].
    unfold fs_isdir. apply bool_decide_eq_true. simpl. set_solver. }
  destruct fuel as [|fuel].
  - assert (r = []) as ->.
    { destruct r; [done|]. rewrite length_app /= in Hfuel. lia. }
    simpl. rewrite app_nil_r in Hmkdir.
    destruct (Hmkdir fs) as (fs2 & Hmk & Hdir); [done|done|by left|].
    simpl in Hmk. by rewrite Hmk.
  - cbn [makedirs_go]. cbv zeta. rewrite Hparent.
    destruct (decide (r = [])) as [->|Hr].
    + rewrite app_nil_r in Hmkdir. rewrite app_nil_r.
      match goal with |- context [if ?c then _ else _] =>
        assert (c = false) as -> end.
      { unfold fs_exists. rewrite Hbase /=. by rewrite andb_false_r. }
      destruct (Hmkdir fs) as (fs2 & Hmk & Hdir); [done|done|by left|].
      simpl in Hmk. by rewrite Hmk.
    + destruct (IH base fs fuel Hr Hbase (chain_free_snoc _ _ _ _ Hfree))
        as (Hres & Hdir).
      { rewrite length_app /= in Hfuel. lia. }
      pose proof (makedirs_go_frame fuel (base ++ r) fs) as [Hf1 _].
      pose proof (makedirs_go_new_dirs fuel (base ++ r) fs) as Hnew.
      match goal with |- context [if ?c then _ else _] =>
        assert (c = true) as -> end.
      { apply andb_true_iff. split.
        - apply bool_decide_eq_true. by destruct base, r.
        - apply negb_true_iff. rewrite -(take_ge r (length r)); [|done].
          apply chain_free_spec; [by eapply chain_free_snoc|].
          destruct r; [done|simpl; lia]. }
      destruct (makedirs_go fuel (base ++ r) fs) as [[e|[]] fs1]; [done|].
      simpl in *.
      destruct (Hmkdir fs1) as (fs2 & Hmk & Hdir2); [done..|].
      by rewrite Hmk.
Qed.

Lemma torch_save_inr (m : Model) name fs fs' :
  torch_save m name fs = inr fs' →
  ∃ p, resolve name = inr p
       ∧ fs_isdir fs p = false ∧ fs_isdir fs (parent p) = true
       ∧ files fs' = <[p := state_dict_bytes (params m)]> (files fs)
       ∧ dirs fs' = dirs fs.
Proof.
  unfold torch_save, fs_save. intros (fs1 & Hopen & Hwrite)%rbind_inr.
  unfold fs_open_w in Hopen. apply rbind_inr in Hopen as (p & Hp & Hopen).
  exists p. split; [done|].
  destruct (fs_isdir fs p); [done|].
  destruct (fs_isdir fs (parent p)); [|by unfold missing_parent in Hopen;
                                         destruct (fs_isfile fs (parent p))].
  injection Hopen as <-. unfold fs_write in Hwrite. rewrite Hp /= in Hwrite.
  rewrite lookup_insert_eq in Hwrite. injection Hwrite as <-. simpl.
  by rewrite insert_insert_eq.
Qed.

Lemma torch_save_ok (m : Model) name p fs :
  resolve name = inr p → fs_isdir fs p = false →
  fs_isdir fs (parent p) = true →
  torch_save m name fs
  = inr (mkFS (<[p := state_dict_bytes (params m)]> (files fs)) (dirs fs)).
Proof.
  intros Hp Hfile Hdir. unfold torch_save, fs_save, fs_open_w.
  rewrite Hp /= Hfile Hdir /=. unfold fs_write.
  rewrite Hp /= lookup_insert_eq /=. by rewrite insert_insert_eq.
Qed.

(** The directory part of a joined file name does not depend on the file
    name. *)
Lemma resolve_join_file (dir : string) :
  ∃ d, ∀ b, starts_with_slash b = false →
            resolve (os_path_join dir b)
            = if bool_decide (dir = "") && bool_decide (b = "")
              then inl (OSError FileNotFoundError)
              else inr (d ++ components b).
Proof.
  destruct (decide (dir = "")) as [->|Hdir].
  - exists []. intros b Hb. unfold os_path_join. rewrite Hb. simpl.
    change ("" +:+ b) with b. unfold resolve. rewrite Hb.
    by destruct (bool_decide (b = "")).
  - destruct (resolve dir) as [e|d] eqn:Hd.
    { unfold resolve in Hd. by rewrite bool_decide_eq_false_2 in Hd. }
    exists d. intros b Hb. rewrite (bool_decide_eq_false_2 (dir = "")); [|done].
    by apply resolve_join.
Qed.

(** X1: when the checkpoint directory, or a whole chain of directories
    leading to it, is missing below an existing directory, a triggered save
    with a single model creates the chain, writes the parameters to
    [snapshot_model.params] in it and returns normally; when the directory
    is already there the save does the same without an error.  No other file
    changes and no directory disappears. *)
Theorem SnapshotModel_call_creates_and_writes (self : SnapshotModel)
    (w : World) (m : Model) (base rest : path) :
  (trigger_call (sm_trigger self) (trainer w)).1 = true →
  updater_models (trainer w) = HasModel m →
  resolve (os_path_join (out (trainer w)) (save_dir self)) = inr (base ++ rest) →
  fs_isdir (fs w) base = true →
  chain_free (fs w) base rest = true →
  fs_isdir (fs w) ((base ++ rest) ++ ["snapshot_model.params"]) = false →
  (SnapshotModel_call self w).1.1 = inr tt
  ∧ files (fs (SnapshotModel_call self w).2)
    = <[(base ++ rest) ++ ["snapshot_model.params"]
        := state_dict_bytes (params m)]> (files (fs w))
  ∧ fs_isdir (fs (SnapshotModel_call self w).2) (base ++ rest) = true
  ∧ dirs (fs w) ⊆ dirs (fs (SnapshotModel_call self w).2).
Proof.
  intros Hfire Hm Hdir Hbase Hfree Hfile. unfold SnapshotModel_call.
  destruct (trigger_call (sm_trigger self) (trainer w)) as [fired ts].
  simpl in Hfire. subst fired.
  set (dir := os_path_join (out (trainer w)) (save_dir self)) in *.
  assert (dir ≠ "") as Hne by (by intros Heq; rewrite Heq in Hdir).
  pose proof (os_makedirs_frame dir (fs w)) as [Hf1 Hd1].
  pose proof (os_makedirs_raises_OSError dir (fs w)) as Hos.
  assert (fs_isdir (os_makedirs dir (fs w)).2 (base ++ rest) = true
          ∧ fs_isdir (os_makedirs dir (fs w)).2
              ((base ++ rest) ++ ["snapshot_model.params"]) = false)
    as [Hd Hnodir].
  { split.
    - destruct (decide (rest = [])) as [->|Hrest].
      + rewrite app_nil_r. by eapply fs_isdir_mono.
      + unfold os_makedirs. rewrite Hdir.
        apply makedirs_go_creates; [done..|]. rewrite length_app. lia.
    - unfold fs_isdir in *. apply bool_decide_eq_false.
      apply bool_decide_eq_false in Hfile.
      intros [?|[?|Hin]]; [tauto..|]. revert Hin.
      unfold os_makedirs. rewrite Hdir.
      intros [?|Hpre]%makedirs_go_new_dirs; [tauto|].
      by apply not_prefix_of_snoc in Hpre. }
  assert (resolve (os_path_join dir "snapshot_model.params")
          = inr ((base ++ rest) ++ ["snapshot_model.params"])) as Hsnap.
  { by apply resolve_join. }
  destruct (os_makedirs dir (fs w)) as [made fs1]. simpl in *.
  assert (except_OSError_pass made = inr tt) as ->.
  { destruct made as [e|[]]; [|done]. by destruct (Hos e eq_refl) as [k ->]. }
  rewrite Hm. unfold save_state_dicts.
  rewrite (torch_save_ok m _ _ fs1 Hsnap Hnodir);
    [|unfold parent; by rewrite removelast_last].
  simpl. rewrite Hf1. done.
Qed.

Lemma save_each_inr dir name (ms : list (string * Model)) fs fs' :
  save_each dir name ms fs = (inr tt, fs') →
  NoDup (map (λ km : string * Model, resolve (os_path_join dir (name km.1))) ms) →
  (∀ k m p, (k, m) ∈ ms → resolve (os_path_join dir (name k)) = inr p →
     files fs' !! p = Some (state_dict_bytes (params m)))
  ∧ (∀ q, (∀ k m, (k, m) ∈ ms → resolve (os_path_join dir (name k)) ≠ inr q) →
       files fs' !! q = files fs !! q)
  ∧ dirs fs' = dirs fs.
Proof.
  revert fs. induction ms as [|[k0 m0] ms IH]; intros fs; simpl.
  - intros [= <-] _. split; [|done]. by intros k m p ?%elem_of_nil.
  - destruct (torch_save m0 (os_path_join dir (name k0)) fs) as [e|fs1] eqn:Hsave;
      [done|].
    apply torch_save_inr in Hsave as (p0 & Hp0 & _ & _ & Hf1 & Hd1).
    intros Heach [Hfresh Hnodup]%NoDup_cons.
    destruct (IH fs1 Heach Hnodup) as (Hwritten & Hother & Hdirs).
    assert (∀ k m, (k, m) ∈ ms → resolve (os_path_join dir (name k)) ≠ inr p0)
      as Hp0_fresh.
    { intros k m Hin Heq. apply Hfresh. rewrite Hp0 -Heq.
      apply list_elem_of_In, in_map_iff. exists (k, m).
      split; [done|]. by apply list_elem_of_In. }
    split; [|split].
    + intros k m p [[= -> ->]|Hin]%elem_of_cons Hp.
      * assert (p = p0) as -> by congruence.
        rewrite Hother; [|done]. by rewrite Hf1 lookup_insert_eq.
      * by eapply Hwritten.
    + intros q Hq. rewrite Hother.
      * rewrite Hf1 lookup_insert_ne; [done|]. intros <-.
        by apply (Hq k0 m0); [left|].
      * intros k m Hin. apply (Hq k m). by right.
    + congruence.
Qed.

(** X2: when the updater has named models, a triggered save that returns
    normally has written the parameters of every model to its own file
    [<name>_snapshot_model.params] and has changed no other file, provided
    the file names of different models resolve to different paths. *)
Theorem SnapshotModel_call_writes_each_model (self : SnapshotModel)
    (w : World) (ms : list (string * Model)) :
  (trigger_call (sm_trigger self) (trainer w)).1 = true →
  updater_models (trainer w) = HasModels ms →
  (SnapshotModel_call self w).1.1 = inr tt →
  NoDup (map (λ km : string * Model,
                resolve (os_path_join
                           (os_path_join (out (trainer w)) (save_dir self))
                           (snapshot_name km.1))) ms) →
  (∀ k m p, (k, m) ∈ ms →
     resolve (os_path_join (os_path_join (out (trainer w)) (save_dir self))
                           (snapshot_name k)) = inr p →
     files (fs (SnapshotModel_call self w).2) !! p
     = Some (state_dict_bytes (params m)))
  ∧ (∀ q, (∀ k m, (k, m) ∈ ms →
             resolve (os_path_join
                        (os_path_join (out (trainer w)) (save_dir self))
                        (snapshot_name k)) ≠ inr q) →
       files (fs (SnapshotModel_call self w).2) !! q = files (fs w) !! q).
Proof.
  intros Hfire Hms. unfold SnapshotModel_call.
  destruct (trigger_call (sm_trigger self) (trainer w)) as [fired ts].
  simpl in Hfire. subst fired.
  set (dir := os_path_join (out (trainer w)) (save_dir self)).
  pose proof (os_makedirs_frame dir (fs w)) as [Hf1 _].
  destruct (os_makedirs dir (fs w)) as [made fs1]. simpl in Hf1.
  destruct (except_OSError_pass made) as [e|[]]; [done|].
  rewrite Hms. simpl.
  destruct (save_each dir snapshot_name ms fs1) as [[e|[]] fs2] eqn:Hsave;
    [done|].
  intros _ Hnodup. simpl.
  destruct (save_each_inr _ _ _ _ _ Hsave Hnodup) as (Hwritten & Hother & _).
  split; [done|]. intros q Hq. by rewrite Hother; [rewrite Hf1|].
Qed.

(** X3: once a triggered save with a single model has returned normally,
    [finalize] on the world it left returns normally too, provided
    [latest_model.params] does not name a directory; afterwards the snapshot
    and the latest file stand next to each other in the same directory and
    both hold the model's parameters. *)
Theorem SnapshotModel_finalize_after_call (self : SnapshotModel) (w : World)
    (m : Model) :
  (trigger_call (sm_trigger self) (trainer w)).1 = true →
  updater_models (trainer w) = HasModel m →
  (SnapshotModel_call self w).1.1 = inr tt →
  (∀ p, resolve (os_path_join (os_path_join (out (trainer w)) (save_dir self))
                              "latest_model.params") = inr p →
        fs_isdir (fs (SnapshotModel_call self w).2) p = false) →
  ∃ d,
    (SnapshotModel_finalize (SnapshotModel_call self w).1.2
                            (SnapshotModel_call self w).2).1 = inr tt
    ∧ files (fs (SnapshotModel_finalize (SnapshotModel_call self w).1.2
                                        (SnapshotModel_call self w).2).2)
      !! (d ++ ["latest_model.params"]) = Some (state_dict_bytes (params m))
    ∧ files (fs (SnapshotModel_finalize (SnapshotModel_call self w).1.2
                                        (SnapshotModel_call self w).2).2)
      !! (d ++ ["snapshot_model.params"]) = Some (state_dict_bytes (params m)).
Proof.
  intros Hfire Hm. unfold SnapshotModel_call.
  destruct (trigger_call (sm_trigger self) (trainer w)) as [fired ts].
  simpl in Hfire. subst fired.
  set (dir := os_path_join (out (trainer w)) (save_dir self)).
  destruct (resolve_join_file dir) as [d Hd].
  pose proof (Hd "snapshot_model.params" eq_refl) as Hsnap.
  pose proof (Hd "latest_model.params" eq_refl) as Hlatest.
  rewrite andb_false_r in Hsnap. rewrite andb_false_r in Hlatest.
  change (components "snapshot_model.params") with ["snapshot_model.params"] in Hsnap.
  change (components "latest_model.params") with ["latest_model.params"] in Hlatest.
  destruct (os_makedirs dir (fs w)) as [made fs1].
  destruct (except_OSError_pass made) as [e|[]]; [done|].
  rewrite Hm. unfold save_state_dicts.
  destruct (torch_save m (os_path_join dir "snapshot_model.params") fs1)
    as [e|fs2] eqn:Hsave; [done|].
  apply torch_save_inr in Hsave as (p & Hp & _ & Hparent & Hf2 & Hd2).
  assert (p = d ++ ["snapshot_model.params"]) as -> by congruence.
  intros _ Hnodir. simpl in *. specialize (Hnodir _ Hlatest).
  exists d. unfold SnapshotModel_finalize. simpl. rewrite Hm. fold dir.
  unfold save_state_dicts.
  assert (fs_isdir fs2 (parent (d ++ ["latest_model.params"])) = true) as Hdir.
  { unfold parent in *. rewrite removelast_last. rewrite removelast_last in Hparent.
    unfold fs_isdir in *. by rewrite Hd2. }
  rewrite (torch_save_ok m _ _ fs2 Hlatest Hnodir Hdir).
  simpl. split; [done|]. split; [by rewrite lookup_insert_eq|].
  rewrite lookup_insert_ne; [by rewrite Hf2 lookup_insert_eq|].
  intros Heq%app_inv_head. done.
Qed.

(** ** LogReport: errors and clean-up *)

Lemma resolve_raises_OSError name e : resolve name = inl e → ∃ k, e = OSError k.
Proof.
  unfold resolve. destruct (bool_decide (name = "")); [|done].
  intros [= <-]. by eexists.
Qed.

Lemma fs_rename_inr src dst fs fs' :
  fs_rename src dst fs = inr fs' →
  ∃ c, files fs !! src = Some c
       ∧ files fs' = <[dst := c]> (delete src (files fs))
       ∧ dirs fs' = dirs fs.
Proof.
  unfold fs_rename. destruct (files fs !! src) as [c|]; [|done].
  destruct (fs_isdir fs dst); [done|].
  destruct (fs_isdir fs (parent dst)); [|by unfold missing_parent;
                                          destruct (fs_isfile fs (parent dst))].
  intros [= <-]. by exists c.
Qed.

Lemma fs_rename_raises_OSError src dst fs e :
  fs_rename src dst fs = inl e → ∃ k, e = OSError k.
Proof.
  unfold fs_rename, missing_parent. destruct (files fs !! src) as [c|].
  - destruct (fs_isdir fs dst); [intros [= <-]; by eexists|].
    destruct (fs_isdir fs (parent dst)); [done|].
    destruct (fs_isfile fs (parent dst)); intros [= <-]; by eexists.
  - intros [= <-]. by eexists.
Qed.

Lemma shutil_move_inr src dst s fs fs' :
  resolve src = inr s → shutil_move src dst fs = inr fs' →
  ∃ t c, files fs !! s = Some c
         ∧ files fs' = <[t := c]> (delete s (files fs))
         ∧ dirs fs' = dirs fs.
Proof.
  unfold shutil_move. intros ->. simpl.
  destruct (resolve dst) as [e|d]; [done|]. simpl.
  destruct (fs_isdir fs d && fs_exists fs (move_target fs s d)); [done|].
  intros (c & ? & ? & ?)%fs_rename_inr. by exists (move_target fs s d), c.
Qed.

Lemma exec_op_raises_OSError op fs e :
  exec_op op fs = inl e → ∃ k, e = OSError k.
Proof.
  destruct op as [name|name chunk|src dst]; simpl.
  - unfold fs_open_w. destruct (resolve name) as [e0|p] eqn:Hp; simpl.
    { intros [= <-]. by eapply resolve_raises_OSError. }
    unfold missing_parent. destruct (fs_isdir fs p); [intros [= <-]; by eexists|].
    destruct (fs_isdir fs (parent p)); [done|].
    destruct (fs_isfile fs (parent p)); intros [= <-]; by eexists.
  - unfold fs_write. destruct (resolve name) as [e0|p] eqn:Hp; simpl.
    { intros [= <-]. by eapply resolve_raises_OSError. }
    destruct (files fs !! p); [done|]. intros [= <-]. by eexists.
  - unfold shutil_move. destruct (resolve src) as [e0|s] eqn:Hs; simpl.
    { intros [= <-]. by eapply resolve_raises_OSError. }
    destruct (resolve dst) as [e0|d] eqn:Hd; simpl.
    { intros [= <-]. by eapply resolve_raises_OSError. }
    destruct (fs_isdir fs d && fs_exists fs (move_target fs s d)).
    { intros [= <-]. by eexists. }
    apply fs_rename_raises_OSError.
Qed.

Lemma exec_ops_raises_OSError ops fs e :
  (exec_ops ops fs).1 = inl e → ∃ k, e = OSError k.
Proof.
  revert fs. induction ops as [|op ops IH]; intros fs; simpl; [done|].
  destruct (exec_op op fs) as [e0|fs1] eqn:Hop; [|by apply IH].
  intros [= <-]. by eapply exec_op_raises_OSError.
Qed.

Lemma mkdtemp_raises_OSError dir names fs e :
  (mkdtemp dir names fs).1 = inl e → ∃ k, e = OSError k.
Proof.
  induction names as [|name names IH]; simpl.
  - intros [= <-]. by eexists.
  - destruct (resolve (os_path_join dir ("tmp" +:+ name))) as [e0|p] eqn:Hp; simpl.
    + destruct (resolve_raises_OSError _ _ Hp) as [k ->].
      destruct k; try (intros [= <-]; by eexists). done.
    + destruct (fs_mkdir p fs) as [e0|fs1] eqn:Hmk; [|done].
      destruct (fs_mkdir_raises_OSError _ _ _ Hmk) as [k ->].
      destruct k; try (intros [= <-]; by eexists). done.
Qed.

Lemma LogReport_persist_raises_OSError (self : LogReport) (w : World) e :
  (LogReport_persist self w).1 = inl e → ∃ k, e = OSError k.
Proof.
  unfold LogReport_persist.
  pose proof (mkdtemp_raises_OSError (out (trainer w)) (rng w) (fs w)) as Hmk.
  destruct (mkdtemp (out (trainer w)) (rng w) (fs w)) as [[e0|[tempd fs1]] rest].
  - intros [= <-]. by apply Hmk.
  - pose proof (exec_ops_raises_OSError
                  (persist_ops (os_path_join tempd "log.json")
                     (os_path_join (out (trainer w)) (log_name self))
                     (json_dump (log self))) fs1) as Hops.
    destruct (exec_ops _ fs1) as [r fs2]. simpl in *.
    intros ->. by apply Hops.
Qed.

Lemma exec_op_dirs op fs fs' : exec_op op fs = inr fs' → dirs fs' = dirs fs.
Proof.
  destruct op as [name|name chunk|src dst]; simpl.
  - by intros (p & _ & _ & ?)%fs_open_w_inr.
  - unfold fs_write. intros (p & _ & Hw)%rbind_inr.
    destruct (files fs !! p); [|done]. by injection Hw as <-.
  - unfold shutil_move. intros (s & Hs & Hmove)%rbind_inr.
    apply rbind_inr in Hmove as (d & Hd & Hmove).
    destruct (fs_isdir fs d && fs_exists fs (move_target fs s d)); [done|].
    by apply fs_rename_inr in Hmove as (c & _ & _ & ?).
Qed.

Lemma exec_ops_dirs ops fs : dirs (exec_ops ops fs).2 = dirs fs.
Proof.
  revert fs. induction ops as [|op ops IH]; intros fs; simpl; [done|].
  destruct (exec_op op fs) as [e|fs1] eqn:Hop; [done|].
  rewrite IH. by eapply exec_op_dirs.
Qed.

Lemma fs_rmtree_dirs d fs : dirs (fs_rmtree d fs) ⊆ dirs fs ∖ {[d]}.
Proof.
  unfold fs_rmtree. simpl. intros p [Hpre Hin]%elem_of_filter.
  apply elem_of_difference. split; [done|].
  intros ->%elem_of_singleton. by apply Hpre.
Qed.

Lemma fs_rmtree_files d fs q c :
  files (fs_rmtree d fs) !! q = Some c ↔ files fs !! q = Some c ∧ ¬ d `prefix_of` q.
Proof.
  unfold fs_rmtree. simpl. rewrite map_lookup_filter_Some. simpl. tauto.
Qed.

(** X4: however the block that persists the log ends, no trace of its
    temporary directory stays behind: every directory present afterwards was
    present before, and every file present afterwards either was there
    before with the same content or holds the complete serialisation of the
    log. *)
Theorem LogReport_persist_leaves_no_staging (self : LogReport) (w : World) :
  dirs (fs (LogReport_persist self w).2) ⊆ dirs (fs w)
  ∧ ∀ q c, files (fs (LogReport_persist self w).2) !! q = Some c →
           files (fs w) !! q = Some c
           ∨ c = str_concat (json_dump (log self)).
Proof.
  unfold LogReport_persist.
  destruct (mkdtemp (out (trainer w)) (rng w) (fs w)) as [[e0|[tempd fs1]] rest]
    eqn:Hmk.
  { simpl. split; [done|]. intros q c ?. by left. }
  apply mkdtemp_inr in Hmk as (Hfiles & name & p & Hname & -> & Hp & Hdirs).
  pose proof (staging_inside_tempdir _ _ _ Hp) as Hstaged.
  set (staged := os_path_join _ "log.json") in *.
  set (new_path := os_path_join _ (log_name self)) in *.
  pose proof (exec_ops_dirs (persist_ops staged new_path (json_dump (log self))) fs1)
    as Hd.
  change (persist_ops staged new_path (json_dump (log self)))
    with ((OpOpen staged :: map (OpWrite staged) (json_dump (log self)))
            ++ [OpMove staged new_path]) in *.
  revert Hd. rewrite exec_ops_app.
  pose proof (staging_frame staged (json_dump (log self)) fs1) as Hframe.
  assert (∀ q, ¬ p `prefix_of` q → resolve staged ≠ inr q) as Hne.
  { intros q Hq. rewrite Hstaged. intros [= <-]. apply Hq. by apply prefix_app_r. }
  destruct (exec_ops (OpOpen staged :: map (OpWrite staged) (json_dump (log self))) fs1)
    as [[e1|r] fs2] eqn:Hstage; cbn [snd] in Hframe.
  - simpl. intros Hd. unfold tempdir_cleanup. rewrite Hp. split.
    + etrans; [apply fs_rmtree_dirs|]. rewrite Hd Hdirs. set_solver.
    + intros q c [Hq Hout]%fs_rmtree_files. left.
      by rewrite -Hfiles -(Hframe q (Hne q Hout)).
  - apply staging_content in Hstage as (sp & Hsp & Hcontent & Hd2 & _).
    assert (sp = p ++ ["log.json"]) as -> by congruence.
    cbn [exec_ops exec_op].
    destruct (shutil_move staged new_path fs2) as [e1|fs3] eqn:Hmove.
    + simpl. intros Hd. unfold tempdir_cleanup. rewrite Hp. split.
      * etrans; [apply fs_rmtree_dirs|]. rewrite Hd Hdirs. set_solver.
      * intros q c [Hq Hout]%fs_rmtree_files. left.
        by rewrite -Hfiles -(Hframe q (Hne q Hout)).
    + simpl. intros Hd. unfold tempdir_cleanup. rewrite Hp.
      apply (shutil_move_inr _ _ _ _ _ Hstaged) in Hmove
        as (t & c0 & Hc0 & Hf3 & Hd3).
      assert (c0 = str_concat (json_dump (log self))) as -> by congruence.
      split.
      * etrans; [apply fs_rmtree_dirs|]. rewrite Hd Hdirs. set_solver.
      * intros q c [Hq Hout]%fs_rmtree_files. rewrite Hf3 in Hq.
        destruct (decide (q = t)) as [->|Hqt].
        { rewrite lookup_insert_eq in Hq. right. congruence. }
        rewrite lookup_insert_ne in Hq; [|by intros <-].
        rewrite lookup_delete_ne in Hq;
          [|intros <-; apply Hout; by apply prefix_app_r].
        left. by rewrite -Hfiles -(Hframe q (Hne q Hout)).
Qed.

Lemma LogReport_call_fired (self : LogReport) (w : World) :
  (trigger_call (lr_trigger self) (trainer w)).1 = true →
  let s1 := Summarizer_add (summarizer self) (LogReport_folded self w) in
  let self2 :=
    mkLogReport (keys self) (trigger_call (lr_trigger self) (trainer w)).2
      (log_name self) s1
      (log self ++ [make_record (Summarizer_compute_mean s1) (trainer w)])
      (_print self) in
  LogReport_call self w
  = match LogReport_persist self2 w with
    | (inl e, w1) => (inl e, self2, w1)
    | (inr _, w1) =>
        match (if _print self2 then LogReport_printout self2 w1
               else (inr tt, w1)) with
        | (inl e, w2) => (inl e, self2, w2)
        | (inr _, w2) => (inr tt, LogReport_init_summary self2, w2)
        end
    end.
Proof.
  unfold LogReport_call, LogReport_folded.
  destruct (trigger_call (lr_trigger self) (trainer w)) as [fired ts].
  simpl. intros ->. by destruct (keys self).
Qed.

Lemma printout_cells_snoc lg record ks :
  printout_cells (lg ++ [record]) ks = inr (map (printout_cell record) ks).
Proof.
  induction ks as [|key ks IH]; [done|]. simpl. by rewrite last_snoc IH.
Qed.

(** X5: an object that the constructor has built raises nothing but
    [OSError] from [__call__]: the constructor rejects printing without a
    key list, the console line of a fired call is always built from the
    record the call has just appended, and so only the calls on the file
    system can fail. *)
Theorem LogReport_call_raises_only_OSError (ks : option (list string))
    (trigger : TriggerState) (name : string) (pr : bool) (w0 w1 : World)
    (self0 self : LogReport) (w : World) (e : exn) :
  LogReport_init ks trigger name pr w0 = (inr self0, w1) →
  keys self = keys self0 → _print self = _print self0 →
  (LogReport_call self w).1.1 = inl e →
  ∃ k, e = OSError k.
Proof.
  intros Hinit Hkeys Hprint.
  assert (_print self = true → ∃ l, keys self = Some l) as Hinv.
  { rewrite Hkeys Hprint. unfold LogReport_init in Hinit.
    destruct pr; [|by injection Hinit as <- _].
    destruct ks as [l|]; [|done]. injection Hinit as <- _. by exists l. }
  destruct (trigger_call (lr_trigger self) (trainer w)).1 eqn:Hfire;
    [|by rewrite LogReport_call_quiet].
  rewrite LogReport_call_fired; [|done]. cbv zeta.
  set (self2 := mkLogReport _ _ _ _ _ _).
  pose proof (LogReport_persist_raises_OSError self2 w) as Hpersist.
  destruct (LogReport_persist self2 w) as [[e0|[]] w2]; simpl in *.
  { intros [= <-]. by apply Hpersist. }
  destruct (_print self) eqn:Hpr; [|done].
  destruct (Hinv eq_refl) as [l Hl].
  unfold LogReport_printout. simpl. rewrite Hl printout_cells_snoc. done.
Qed.

Lemma LogReport_call_fired_inl (self : LogReport) (w : World) (e : exn) :
  (trigger_call (lr_trigger self) (trainer w)).1 = true →
  (LogReport_call self w).1.1 = inl e →
  (LogReport_call self w).1.2
  = let s1 := Summarizer_add (summarizer self) (LogReport_folded self w) in
    mkLogReport (keys self) (trigger_call (lr_trigger self) (trainer w)).2
      (log_name self) s1
      (log self ++ [make_record (Summarizer_compute_mean s1) (trainer w)])
      (_print self).
Proof.
  intros Hfire. rewrite LogReport_call_fired; [|done]. cbv zeta.
  set (self2 := mkLogReport _ _ _ _ _ _).
  destruct (LogReport_persist self2 w) as [[e0|[]] w1]; [done|].
  by destruct (if _print self2 then LogReport_printout self2 w1 else (inr (), w1))
    as [[e0|[]] w2].
Qed.

(** X6: when a fired call raises, the record of the interval has already
    been appended to the in-memory log and the summarizer has not been
    reset.  The observations of the failed interval are therefore counted
    again: the record of the next fire that returns normally averages over
    the steps of both intervals. *)
Theorem LogReport_failed_fire_carries_over (self self_n self_m : LogReport)
    (ws ws' : list World) (w w' : World) (e : exn) :
  summarizer self = Summarizer_new →
  LogReport_quiet_calls self ws = Some self_n →
  (trigger_call (lr_trigger self_n) (trainer w)).1 = true →
  (LogReport_call self_n w).1.1 = inl e →
  LogReport_quiet_calls (LogReport_call self_n w).1.2 ws' = Some self_m →
  (trigger_call (lr_trigger self_m) (trainer w')).1 = true →
  (LogReport_call self_m w').1.1 = inr tt →
  ∃ failed record,
    log (LogReport_call self_n w).1.2 = log self ++ [failed]
    ∧ log (LogReport_call self_m w').1.2 = log self ++ [failed; record]
    ∧ ∀ key, key ∉ ["epoch"; "iteration"; "elapsed_time"] →
        failed !! key
        = PyFloat <$> interval_mean (map (LogReport_folded self) (ws ++ [w])) key
        ∧ record !! key
          = PyFloat <$> interval_mean
                          (map (LogReport_folded self)
                               (ws ++ [w] ++ ws' ++ [w'])) key.
Proof.
  intros Hfresh (Hsum & Hlog & Hkeys & Hname & Hprint)%LogReport_quiet_calls_state
         Hfire.
  assert (∀ a b : LogReport, keys a = keys b →
            LogReport_folded a = LogReport_folded b) as Hfolded.
  { intros a b Hab. unfold LogReport_folded. by rewrite Hab. }
  intros Hraise.
  rewrite (LogReport_call_fired_inl self_n w e Hfire Hraise).
  set (s1 := Summarizer_add (summarizer self_n) (LogReport_folded self_n w)).
  assert (s1 = foldl Summarizer_add Summarizer_new
                     (map (LogReport_folded self) (ws ++ [w]))) as Hs1.
  { rewrite map_app foldl_app /= -Hfresh -Hsum. unfold s1.
    by rewrite (Hfolded self_n self). }
  set (failed := make_record (Summarizer_compute_mean s1) (trainer w)).
  set (self2 := mkLogReport _ _ _ _ _ _).
  intros
    (Hsum' & Hlog' & Hkeys' & Hname' & Hprint')%LogReport_quiet_calls_state Hfire'.
  simpl in *.
  rewrite LogReport_call_fired; [|done]. cbv zeta.
  set (s2 := Summarizer_add (summarizer self_m) (LogReport_folded self_m w')).
  assert (s2 = foldl Summarizer_add Summarizer_new
                     (map (LogReport_folded self) (ws ++ [w] ++ ws' ++ [w'])))
    as Hs2.
  { rewrite (app_assoc ws [w]) (app_assoc (ws ++ [w])) 2!map_app 2!foldl_app /=.
    rewrite -Hs1. unfold s2. rewrite Hsum'.
    rewrite (Hfolded self_m self); [|congruence].
    by rewrite (Hfolded self2 self). }
  set (record := make_record (Summarizer_compute_mean s2) (trainer w')).
  set (self3 := mkLogReport _ _ _ _ _ _).
  destruct (LogReport_persist self3 w') as [[e0|[]] w2]; [done|].
  destruct (if _print self3 then LogReport_printout self3 w2 else (inr (), w2))
    as [[e0|[]] w3]; [done|].
  intros _. exists failed, record. simpl. rewrite Hlog' Hlog -assoc.
  split; [done|]. split; [done|].
  intros key Hkey. unfold failed, record.
  rewrite !make_record_lookup; [|done..].
  by rewrite Hs1 Hs2 !Summarizer_interval_mean.
Qed.

(** ** ProgressBar *)

Lemma py_int_range (x : Qc) (lo hi : Z) :
  0 ≤ lo → (Qc_of_Z lo ≤ x)%Qc → (x ≤ Qc_of_Z hi)%Qc → lo ≤ py_int x ≤ hi.
Proof.
  unfold Qcle, Qle, py_int. destruct x as [[n d] Hc]. simpl.
  rewrite !Z.mul_1_r. intros Hlo Hn Hd.
  assert (0 ≤ n) by nia.
  rewrite Z.quot_div_nonneg; [|lia..].
  split.
  - apply Z.div_le_lower_bound; lia.
  - apply Z.div_le_upper_bound; lia.
Qed.

(** The fraction [n / len] of 50 cells lies between 0 and 50. *)
Lemma scaled_range (n len : Z) :
  0 < len → 0 ≤ n ≤ len →
  (Qc_of_Z 0 ≤ Qc_of_Z n * (Qc_of_Z 50 / Qc_of_Z len))%Qc
  ∧ (Qc_of_Z n * (Qc_of_Z 50 / Qc_of_Z len) ≤ Qc_of_Z 50)%Qc.
Proof.
  intros Hlen Hn.
  assert (this (Qc_of_Z n * (Qc_of_Z 50 / Qc_of_Z len))%Qc
          == (50 * n) # (Z.to_pos len))%Q as Heq.
  { unfold Qcdiv, Qcmult, Qcinv, Qc_of_Z, Q2Qc. simpl this.
    repeat setoid_rewrite Qred_correct.
    destruct len as [|p|p]; try lia. simpl.
    unfold Qeq, Qmult, Qinv. simpl. lia. }
  unfold Qcle. setoid_rewrite Heq. unfold Qc_of_Z, Q2Qc. simpl this.
  destruct len as [|p|p]; try lia. simpl.
  unfold Qle. simpl. lia.
Qed.

Lemma filled_cells (n len : Z) :
  0 < len → 0 ≤ n ≤ len →
  0 ≤ py_int (Qc_of_Z n * (Qc_of_Z 50 / Qc_of_Z len))%Qc ≤ 50.
Proof.
  intros Hlen Hn. destruct (scaled_range n len Hlen Hn) as [Hlo Hhi].
  by apply py_int_range.
Qed.

(** X7: [ProgressBar.__call__] touches nothing but the console, to which it
    writes at most once, and its own clock readings; the only exception it
    raises is [ZeroDivisionError], and then nothing has changed at all. *)
Theorem ProgressBar_call_frame (self : ProgressBar) (w : World) :
  trainer (ProgressBar_call self w).2 = trainer w
  ∧ fs (ProgressBar_call self w).2 = fs w
  ∧ reporters (ProgressBar_call self w).2 = reporters w
  ∧ grad_enabled (ProgressBar_call self w).2 = grad_enabled w
  ∧ update_interval (ProgressBar_call self w).1.2 = update_interval self
  ∧ (∃ written, stdout (ProgressBar_call self w).2 = stdout w ++ written
                ∧ (length written ≤ 1)%nat)
  ∧ (∀ e, (ProgressBar_call self w).1.1 = inl e →
          e = ZeroDivisionError
          ∧ (ProgressBar_call self w).1.2 = self
          ∧ (ProgressBar_call self w).2 = w).
Proof.
  assert (∃ written : list string, stdout w = stdout w ++ written
                                   ∧ (length written ≤ 1)%nat) as Hnone.
  { exists []. by rewrite app_nil_r /=; split; [|lia]. }
  unfold ProgressBar_call.
  destruct (bool_decide (update_interval self = 0)).
  { simpl. do 5 (split; [done|]). split; [done|]. by intros e [= <-]. }
  destruct (bool_decide (total_iter (trainer w) `mod` update_interval self = 0));
    [|by simpl; do 5 (split; [done|])].
  destruct (bool_decide
              (trigger_span (trainer w) * updater_data_loader_len (trainer w) = 0)).
  { simpl. do 5 (split; [done|]). split; [done|]. by intros e [= <-]. }
  simpl. do 5 (split; [done|]).
  split; [|done]. eexists [_]. split; [done|]. simpl. lia.
Qed.

(** X8: on a redraw within the planned run (the iteration counters between
    zero and the lengths they are compared with) the call returns normally
    and writes one string in which each of the two bars is its label, some
    number of marks, blanks up to 50 cells and the closing bracket: neither
    bar is ever shorter or longer than 50 cells. *)
Theorem ProgressBar_call_bars_have_50_cells (self : ProgressBar) (w : World) :
  update_interval self ≠ 0 →
  total_iter (trainer w) `mod` update_interval self = 0 →
  0 < trigger_span (trainer w) →
  0 < updater_data_loader_len (trainer w) →
  0 ≤ total_iter (trainer w)
    ≤ trigger_span (trainer w) * updater_data_loader_len (trainer w) →
  0 ≤ updater_iteration (trainer w) ≤ updater_data_loader_len (trainer w) →
  ∃ (a b : nat) (estimated : string),
    (a ≤ 50)%nat ∧ (b ≤ 50)%nat
    ∧ (ProgressBar_call self w).1.1 = inr tt
    ∧ stdout (ProgressBar_call self w).2
      = stdout w
        ++ [esc +:+ "[2K" +:+ esc +:+ "[G"
              +:+ ("     Total: [" +:+ str_repeat "#"%char a
                     +:+ str_repeat " "%char (50 - a) +:+ "]")
              +:+ newline
              +:+ ("This Epoch: [" +:+ str_repeat "#"%char b
                     +:+ str_repeat " "%char (50 - b) +:+ "]")
              +:+ newline +:+ estimated +:+ esc +:+ "[1A" +:+ esc +:+ "[1A"
              +:+ esc +:+ "[G"].
Proof.
  intros Hinterval Hredraw Hspan Hlen Htotal Hiter.
  unfold ProgressBar_call.
  rewrite (bool_decide_eq_false_2 (update_interval self = 0)); [|done].
  rewrite (bool_decide_eq_true_2 _ Hredraw).
  rewrite bool_decide_eq_false_2; [|lia].
  cbv zeta. unfold bar.
  set (ta := py_int (Qc_of_Z (total_iter (trainer w)) * _)%Qc).
  set (tb := py_int (Qc_of_Z (updater_iteration (trainer w)) * _)%Qc).
  assert (0 ≤ ta ≤ 50) as Hta by (apply filled_cells; lia).
  assert (0 ≤ tb ≤ 50) as Htb by (apply filled_cells; lia).
  exists (Z.to_nat ta), (Z.to_nat tb). eexists.
  split; [lia|]. split; [lia|]. split; [done|]. simpl stdout.
  replace (Z.to_nat (50 - ta)) with (50 - Z.to_nat ta)%nat by lia.
  replace (Z.to_nat (50 - tb)) with (50 - Z.to_nat tb)%nat by lia.
  reflexivity.
Qed.

(** ** Evaluators: what is reported, and what an exception leaves *)

Lemma str_append_inj (a b c : string) : a +:+ b = a +:+ c → b = c.
Proof.
  induction a as [|x a IH]; [done|].
  rewrite !str_cons_append. intros [= ?]. by apply IH.
Qed.

(** The keys a registered observer reports are recorded with the
    observer's prefix, and nothing else is recorded. *)
Lemma prefixed_lookup (names : gmap nat string) (o : nat) (name : string)
    (vs : gmap string Qc) (k : string) :
  names !! o = Some name →
  prefixed names (Some o) vs !! (name +:+ "/" +:+ k) = vs !! k.
Proof.
  intros Hname. unfold prefixed. simpl. rewrite Hname.
  apply (map_fold_weak_ind
           (λ (acc : gmap string Qc) (m : gmap string Qc),
              acc !! (name +:+ "/" +:+ k) = m !! k)); [done|].
  intros i x m r Hi IH. destruct (decide (i = k)) as [->|Hne].
  - by rewrite !lookup_insert_eq.
  - rewrite lookup_insert_ne; [|by intros ?%str_append_inj%str_append_inj].
    by rewrite lookup_insert_ne.
Qed.

Lemma prefixed_dom (names : gmap nat string) (o : nat) (name : string)
    (vs : gmap string Qc) (key : string) :
  names !! o = Some name →
  is_Some (prefixed names (Some o) vs !! key) →
  ∃ k, key = name +:+ "/" +:+ k.
Proof.
  intros Hname. unfold prefixed. simpl. rewrite Hname.
  apply (map_fold_weak_ind
           (λ (acc : gmap string Qc) (m : gmap string Qc),
              is_Some (acc !! key) → ∃ k, key = name +:+ "/" +:+ k)).
  - rewrite lookup_empty. by intros [? ?].
  - intros i x m r Hi IH. destruct (decide (name +:+ "/" +:+ i = key)) as [<-|Hne].
    + intros _. by exists i.
    + by rewrite lookup_insert_ne.
Qed.

(** One round of the loop of [ClassifyEvaluater.__call__]. *)
Lemma Classify_batch_inr (reporter : Reporter) (loss_fn : LossFn)
    (batch : Batch) (w w1 : World) (m : Model) (obs : gmap string Qc) :
  get_model w = inr m →
  Classify_batch reporter loss_fn batch w = (inr obs, w1) →
  ∃ vs, (loss_fn batch false (Model_eval m)).1 = inr vs
        ∧ obs = prefixed (observer_names reporter) (Some (model_id m)) vs
        ∧ get_model w1 = inr (Model_train (loss_fn batch false (Model_eval m)).2)
        ∧ reporters w1 = reporters w
        ∧ observation (trainer w1) = observation (trainer w)
        ∧ fs w1 = fs w ∧ stdout w1 = stdout w.
Proof.
  intros Hm. unfold Classify_batch.
  assert (get_model (set_grad_enabled false (scope_enter reporter w)) = inr m)
    as -> by done.
  change (grad_enabled (set_model (Model_eval m)
            (set_grad_enabled false (scope_enter reporter w)))) with false.
  destruct (loss_fn batch false (Model_eval m)) as [[e|vs] m1] eqn:Hloss;
    simpl; [done|].
  intros [= <- <-]. exists vs. simpl.
  by rewrite !(right_id_L ∅ (∪)).
Qed.

Lemma Classify_batch_inl (reporter : Reporter) (loss_fn : LossFn)
    (batch : Batch) (w w1 : World) (m : Model) (e : exn) :
  get_model w = inr m →
  Classify_batch reporter loss_fn batch w = (inl e, w1) →
  (loss_fn batch false (Model_eval m)).1 = inl e
  ∧ get_model w1 = inr (loss_fn batch false (Model_eval m)).2
  ∧ grad_enabled w1 = grad_enabled w
  ∧ reporters w1 = reporters w
  ∧ fs w1 = fs w ∧ stdout w1 = stdout w.
Proof.
  intros Hm. unfold Classify_batch.
  assert (get_model (set_grad_enabled false (scope_enter reporter w)) = inr m)
    as -> by done.
  change (grad_enabled (set_model (Model_eval m)
            (set_grad_enabled false (scope_enter reporter w)))) with false.
  destruct (loss_fn batch false (Model_eval m)) as [[e0|vs] m1] eqn:Hloss;
    simpl; [|done].
  by intros [= <- <-].
Qed.

Lemma Classify_loop_inr (reporter : Reporter) (loss_fn : LossFn)
    (bs : list Batch) (s s1 : Summarizer) (w w1 : World) (m : Model) :
  (∀ batch m0, model_id (loss_fn batch false m0).2 = model_id m0) →
  get_model w = inr m →
  Classify_loop reporter loss_fn bs s w = (inr s1, w1) →
  s1 = foldl Summarizer_add s
         (map (prefixed (observer_names reporter) (Some (model_id m)))
              (Classify_values reporter loss_fn bs w))
  ∧ length (Classify_values reporter loss_fn bs w) = length bs
  ∧ reporters w1 = reporters w
  ∧ observation (trainer w1) = observation (trainer w).
Proof.
  intros Hid. revert s w m.
  induction bs as [|batch bs IH]; intros s w m Hm; simpl.
  - by intros [= <- <-].
  - rewrite Hm.
    destruct (Classify_batch reporter loss_fn batch w) as [[e|obs] w0] eqn:Hb;
      [done|].
    destruct (Classify_batch_inr _ _ _ _ _ _ _ Hm Hb)
      as (vs & Hvs & -> & Hm0 & Hr0 & Ho0 & _).
    rewrite Hvs. simpl.
    intros (-> & Hlen & Hr1 & Ho1)%(IH _ _ _ Hm0). simpl.
    rewrite Hid. simpl. split; [done|]. split; [by f_equal|].
    split; congruence.
Qed.

Lemma interval_mean_prefixed (names : gmap nat string) (o : nat)
    (name : string) (ds : list (gmap string Qc)) (k : string) :
  names !! o = Some name →
  interval_mean (map (prefixed names (Some o)) ds) (name +:+ "/" +:+ k)
  = interval_mean ds k.
Proof.
  intros Hname. unfold interval_mean, interval_values.
  assert (omap (λ d : gmap string Qc, d !! (name +:+ "/" +:+ k))
               (map (prefixed names (Some o)) ds)
          = omap (λ d : gmap string Qc, d !! k) ds) as ->; [|done].
  induction ds as [|d ds IH]; [done|].
  cbn. rewrite (prefixed_lookup _ _ _ _ _ Hname).
  destruct (d !! k); by rewrite IH.
Qed.

Lemma interval_mean_is_Some (ds : list (gmap string Qc)) (key : string) :
  is_Some (interval_mean ds key) → ∃ d, d ∈ ds ∧ is_Some (d !! key).
Proof.
  unfold interval_mean, interval_values.
  induction ds as [|d ds IH]; cbn; [by intros [? ?]|].
  destruct (d !! key) as [v|] eqn:Hd; cbn.
  - intros _. exists d. split; [by left|]. by rewrite Hd.
  - intros (d' & ? & ?)%IH. exists d'. split; [by right|done].
Qed.

(** X9: a fired call of [ClassifyEvaluater] that returns normally has run
    the loss computation once per batch and ends by reporting, without an
    observer, a dictionary of means: under the key [validation/k] the simple
    average of the values that the loss computations returned for [k], each
    batch counted once, and no key of another form.  The loss computation is
    assumed to return with the model object it was given. *)
Theorem ClassifyEvaluater_reports_batch_means (self : ClassifyEvaluater)
    (w : World) (m : Model) :
  (trigger_call (ce_trigger self) (trainer w)).1 = true →
  get_model w = inr m →
  (∀ batch m0,
     model_id (from_option id calc_loss (eval_fn self) batch false m0).2
     = model_id m0) →
  (ClassifyEvaluater_call self w).1.1 = inr tt →
  let values :=
    Classify_values
      (Reporter_add_observer "validation" (model_id m) Reporter_new)
      (from_option id calc_loss (eval_fn self)) (ce_data_loader self) w in
  ∃ means w1,
    (ClassifyEvaluater_call self w).2 = report means None w1
    ∧ reporters w1 = reporters w
    ∧ observation (trainer w1) = observation (trainer w)
    ∧ length values = length (ce_data_loader self)
    ∧ (∀ k, means !! ("validation/" +:+ k) = interval_mean values k)
    ∧ (∀ key, is_Some (means !! key) → ∃ k, key = "validation/" +:+ k).
Proof.
  intros Hfire Hm Hid. unfold ClassifyEvaluater_call.
  destruct (trigger_call (ce_trigger self) (trainer w)) as [fired ts].
  simpl in Hfire. subst fired. rewrite Hm.
  set (reporter := Reporter_add_observer "validation" (model_id m) Reporter_new).
  set (loss_fn := from_option id calc_loss (eval_fn self)) in *.
  destruct (Classify_loop reporter loss_fn (ce_data_loader self) Summarizer_new w)
    as [[e|s1] w1] eqn:Hloop; [done|].
  destruct (Classify_loop_inr _ _ _ _ _ _ _ m Hid Hm Hloop)
    as (-> & Hlen & Hr & Ho).
  intros _. cbv zeta. simpl. eexists _, w1. split; [done|].
  do 3 (split; [done|]).
  assert (observer_names reporter !! model_id m = Some "validation") as Hname.
  { unfold reporter, Reporter_add_observer. simpl. by rewrite lookup_insert_eq. }
  split.
  - intros k. rewrite Summarizer_interval_mean.
    by rewrite (interval_mean_prefixed _ _ "validation").
  - intros key. rewrite Summarizer_interval_mean.
    intros (d & (vs & <- & _)%list_elem_of_In%in_map_iff & Hsome)%interval_mean_is_Some.
    exact (prefixed_dom _ _ "validation" _ _ Hname Hsome).
Qed.

Lemma Classify_loop_inl (reporter : Reporter) (loss_fn : LossFn)
    (bs : list Batch) (s : Summarizer) (w w1 : World) (m : Model) (e : exn) :
  (∀ batch m0, training (loss_fn batch false m0).2 = training m0) →
  get_model w = inr m →
  Classify_loop reporter loss_fn bs s w = (inl e, w1) →
  ∃ m1, get_model w1 = inr m1 ∧ training m1 = false
        ∧ grad_enabled w1 = grad_enabled w ∧ reporters w1 = reporters w.
Proof.
  intros Hmode. revert s w m.
  induction bs as [|batch bs IH]; intros s w m Hm; simpl; [done|].
  destruct (Classify_batch reporter loss_fn batch w) as [[e0|obs] w0] eqn:Hb.
  - intros [= <- <-].
    destruct (Classify_batch_inl _ _ _ _ _ _ _ Hm Hb) as (_ & Hm0 & Hg & Hr & _).
    eexists. split; [done|]. by rewrite Hmode.
  - destruct (Classify_batch_inr _ _ _ _ _ _ _ Hm Hb)
      as (vs & _ & _ & Hm0 & Hr0 & _).
    destruct (Classify_batch_model _ _ _ _ _ _ _ Hm Hb) as [_ Hg0].
    intros (m1 & ? & ? & ? & ?)%(IH _ _ _ Hm0).
    exists m1. repeat split; congruence.
Qed.

(** X10: when a fired call of [ClassifyEvaluater] raises, the model is left
    in evaluation mode: the switch back to training mode is not protected
    against an exception of the loss computation.  The scope and the
    gradient mode are restored.  The loss computation is assumed not to
    switch modes itself. *)
Theorem ClassifyEvaluater_raise_leaves_eval_mode (self : ClassifyEvaluater)
    (w : World) (m : Model) (e : exn) :
  (trigger_call (ce_trigger self) (trainer w)).1 = true →
  get_model w = inr m →
  (∀ batch m0,
     training (from_option id calc_loss (eval_fn self) batch false m0).2
     = training m0) →
  (ClassifyEvaluater_call self w).1.1 = inl e →
  ∃ m1, get_model (ClassifyEvaluater_call self w).2 = inr m1
        ∧ training m1 = false
        ∧ grad_enabled (ClassifyEvaluater_call self w).2 = grad_enabled w
        ∧ reporters (ClassifyEvaluater_call self w).2 = reporters w.
Proof.
  intros Hfire Hm Hmode. unfold ClassifyEvaluater_call.
  destruct (trigger_call (ce_trigger self) (trainer w)) as [fired ts].
  simpl in Hfire. subst fired. rewrite Hm.
  destruct (Classify_loop _ _ _ _ _) as [[e0|s1] w1] eqn:Hloop; [|done].
  intros _. simpl. by eapply Classify_loop_inl.
Qed.

(** X11: with an empty data loader a fired call of [MetricEvaluater] raises
    [UnboundLocalError]: the block after the loop reads the loop variable
    [observation], which no round has bound.  By then the model has been
    switched to evaluation mode and back to training mode; nothing else has
    changed. *)
Theorem MetricEvaluater_empty_loader_raises (self : MetricEvaluater)
    (w : World) (m : Model) :
  (trigger_call (me_trigger self) (trainer w)).1 = true →
  get_model w = inr m →
  batches (me_data_loader self) = [] →
  (MetricEvaluater_call self w).1.1 = inl (UnboundLocalError "observation")
  ∧ (MetricEvaluater_call self w).2 = set_model (Model_train m) w.
Proof.
  intros Hfire Hm Hempty. unfold MetricEvaluater_call.
  destruct (trigger_call (me_trigger self) (trainer w)) as [fired ts].
  simpl in Hfire. subst fired. rewrite Hm Hempty. done.
Qed.

Lemma report_fs (vs : gmap string Qc) (o : option nat) (w : World) :
  fs (report vs o w) = fs w ∧ stdout (report vs o w) = stdout w.
Proof. unfold report. by destruct (reporters w). Qed.

Lemma scope_exit_fs (dest : gmap string Qc) (w : World) :
  fs (scope_exit dest w).2 = fs w ∧ stdout (scope_exit dest w).2 = stdout w.
Proof. unfold scope_exit. by destruct (reporters w). Qed.

Lemma report_scores_fs (o : nat) (K : list Z) (scores : list Qc) (w : World) :
  fs (report_scores o K scores w) = fs w
  ∧ stdout (report_scores o K scores w) = stdout w.
Proof.
  unfold report_scores. generalize (zip K scores). intros l. revert w.
  induction l as [|ks l IH]; intros w; [done|]. simpl.
  destruct (IH (report {["R@" +:+ pretty ks.1 := ks.2]} (Some o) w)) as [-> ->].
  apply report_fs.
Qed.

Lemma Classify_batch_fs (reporter : Reporter) (loss_fn : LossFn)
    (batch : Batch) (w : World) :
  fs (Classify_batch reporter loss_fn batch w).2 = fs w
  ∧ stdout (Classify_batch reporter loss_fn batch w).2 = stdout w.
Proof.
  unfold Classify_batch.
  destruct (get_model (set_grad_enabled false (scope_enter reporter w)))
    as [e|m].
  - simpl. done.
  - destruct (loss_fn batch _ (Model_eval m)) as [[e|vs] m1]; by simpl.
Qed.

Lemma Classify_loop_fs (reporter : Reporter) (loss_fn : LossFn)
    (bs : list Batch) (s : Summarizer) (w : World) :
  fs (Classify_loop reporter loss_fn bs s w).2 = fs w
  ∧ stdout (Classify_loop reporter loss_fn bs s w).2 = stdout w.
Proof.
  revert s w. induction bs as [|batch bs IH]; intros s w; [done|]. simpl.
  pose proof (Classify_batch_fs reporter loss_fn batch w) as [Hf Ho].
  destruct (Classify_batch reporter loss_fn batch w) as [[e|obs] w0]; [done|].
  destruct (IH (Summarizer_add s obs) w0) as [-> ->]. done.
Qed.

Lemma forward_fs (x : Input) (w : World) :
  fs (forward x w).2 = fs w ∧ stdout (forward x w).2 = stdout w.
Proof.
  unfold forward. destruct (get_model w) as [e|m]; [done|].
  by destruct (model_forward (grad_enabled w) m x).
Qed.

Lemma Metric_batch_fs (reporter : Reporter) (o : nat)
    (batch : Input * Input * Input) (w : World) :
  fs (Metric_batch reporter o batch w).2 = fs w
  ∧ stdout (Metric_batch reporter o batch w).2 = stdout w.
Proof.
  unfold Metric_batch.
  set (w0 := set_grad_enabled false (scope_enter reporter w)).
  assert (fs (Metric_batch_body o batch w0).2 = fs w
          ∧ stdout (Metric_batch_body o batch w0).2 = stdout w) as [Hf Ho].
  { unfold Metric_batch_body. destruct batch as [[x_as x_ps] x_ns].
    pose proof (forward_fs x_as w0) as [Hfa Hoa].
    destruct (forward x_as w0) as [[e|a_out] wa]; [done|].
    pose proof (forward_fs x_ps wa) as [Hfp Hop].
    destruct (forward x_ps wa) as [[e|p_out] wp]; simpl in *; [split; congruence|].
    pose proof (forward_fs x_ns wp) as [Hfn Hon].
    destruct (forward x_ns wp) as [[e|n_out] wn]; simpl in *; [split; congruence|].
    match goal with |- context [report ?a ?b ?c] =>
      destruct (report_fs a b c) as [-> ->] end.
    split; congruence. }
  destruct (Metric_batch_body o batch w0) as [rb w2].
  match goal with |- context [scope_exit ∅ ?w3] =>
    pose proof (scope_exit_fs ∅ w3) as [Hf3 Ho3];
    destruct (scope_exit ∅ w3) as [obs w4] end.
  simpl in *. destruct rb; simpl; split; congruence.
Qed.

Lemma Metric_loop_fs (reporter : Reporter) (o : nat)
    (bs : list (Input * Input * Input)) (s : Summarizer)
    (embs : list Embedding) (obs : option (gmap string Qc)) (w : World) :
  fs (Metric_loop reporter o bs s embs obs w).2 = fs w
  ∧ stdout (Metric_loop reporter o bs s embs obs w).2 = stdout w.
Proof.
  revert s embs obs w. induction bs as [|batch bs IH]; intros s embs obs w;
    [done|]. simpl.
  pose proof (Metric_batch_fs reporter o batch w) as [Hf Ho].
  destruct (Metric_batch reporter o batch w) as [[e|[obs0 rows]] w0]; [done|].
  destruct (IH (Summarizer_add s obs0) (embs ++ rows) (Some obs0) w0) as [-> ->].
  done.
Qed.

Lemma Metric_scores_fs (self : MetricEvaluater) (reporter : Reporter)
    (o : nat) (s : Summarizer) (embs : list Embedding)
    (obs : option (gmap string Qc)) (w : World) :
  fs (Metric_scores self reporter o s embs obs w).2 = fs w
  ∧ stdout (Metric_scores self reporter o s embs obs w).2 = stdout w.
Proof.
  unfold Metric_scores. destruct obs as [d|]; [|done].
  destruct (np_reshape embs (dataset_len (me_data_loader self))) as [e|matrix];
    cbn [snd].
  - by destruct (scope_exit_fs d (scope_enter reporter w)) as [-> ->].
  - match goal with |- context [scope_exit d ?w0] =>
      destruct (scope_exit_fs d w0) as [-> ->] end.
    match goal with |- context [report_scores ?a ?b ?c ?w0] =>
      destruct (report_scores_fs a b c w0) as [-> ->] end.
    done.
Qed.

(** X12: the two evaluators never touch the file system or the console,
    however their call ends. *)
Theorem evaluators_leave_files_and_console :
  (∀ (self : ClassifyEvaluater) (w : World),
     fs (ClassifyEvaluater_call self w).2 = fs w
     ∧ stdout (ClassifyEvaluater_call self w).2 = stdout w)
  ∧ (∀ (self : MetricEvaluater) (w : World),
       fs (MetricEvaluater_call self w).2 = fs w
       ∧ stdout (MetricEvaluater_call self w).2 = stdout w).
Proof.
  split.
  - intros self w. unfold ClassifyEvaluater_call.
    destruct (trigger_call (ce_trigger self) (trainer w)) as [[] ts]; [|done].
    destruct (get_model w) as [e|m]; [done|].
    match goal with |- context [Classify_loop ?r ?l ?b ?s w] =>
      pose proof (Classify_loop_fs r l b s w) as [Hf Ho];
      destruct (Classify_loop r l b s w) as [[e|s1] w1] end; [done|].
    simpl in *. destruct (report_fs (Summarizer_compute_mean s1) None w1)
      as [-> ->]. done.
  - intros self w. unfold MetricEvaluater_call.
    destruct (trigger_call (me_trigger self) (trainer w)) as [[] ts]; [|done].
    destruct (get_model w) as [e|m]; [done|].
    match goal with |- context [Metric_loop ?r ?o ?b ?s ?e0 ?ob ?w0] =>
      pose proof (Metric_loop_fs r o b s e0 ob w0) as [Hf Ho];
      destruct (Metric_loop r o b s e0 ob w0) as [[e|[[s1 embs] obs]] w1] end;
      [done|].
    simpl in Hf, Ho.
    set (w2 := match get_model w1 with
               | inr m0 => set_model (Model_train m0) w1
               | inl _ => w1
               end).
    assert (fs w2 = fs w ∧ stdout w2 = stdout w) as [Hf2 Ho2].
    { unfold w2. by destruct (get_model w1). }
    match goal with |- context [Metric_scores ?a ?b ?c ?d ?e0 ?f w2] =>
      pose proof (Metric_scores_fs a b c d e0 f w2) as [Hf3 Ho3];
      destruct (Metric_scores a b c d e0 f w2) as [[e|s2] w3] end;
      simpl in *; [split; congruence|].
    destruct (report_fs (Summarizer_compute_mean s2) None w3) as [-> ->].
    split; congruence.
Qed.

(** X13: on a quiet step (the trigger does not fire; for a [ProgressBar],
    the iteration count is not a multiple of the update interval) the call
    of an extension of any class returns normally and leaves the world
    exactly as it was. *)
Theorem ext_call_quiet_step (o : ExtensionObj) (w : World) :
  ext_quiet o w = true →
  (ext_call o w).1.1 = inr tt
  ∧ (ext_call o w).2 = w
  ∧ class_of (ext_call o w).1.2 = class_of o.
Proof.
  destruct o as [e|e|e|e|e|e]; simpl; [done|..].
  - intros Hq%negb_true_iff. by rewrite LogReport_call_quiet.
  - intros [Hi%negb_true_iff Hm%negb_true_iff]%andb_true_iff.
    unfold ProgressBar_call. by rewrite Hi Hm.
  - intros Hq%negb_true_iff. unfold ClassifyEvaluater_call.
    destruct (trigger_call (ce_trigger e) (trainer w)) as [fired ts].
    simpl in Hq. by subst fired.
  - intros Hq%negb_true_iff. unfold MetricEvaluater_call.
    destruct (trigger_call (me_trigger e) (trainer w)) as [fired ts].
    simpl in Hq. by subst fired.
  - intros Hq%negb_true_iff. unfold SnapshotModel_call.
    destruct (trigger_call (sm_trigger e) (trainer w)) as [fired ts].
    simpl in Hq. by subst fired.
Qed.

(** ** Checkpoints again: repeated saves and several models *)

Lemma os_makedirs_new_dirs name fs q :
  q ∈ dirs (os_makedirs name fs).2 →
  q ∈ dirs fs ∨ ∃ d, resolve name = inr d ∧ q `prefix_of` d.
Proof.
  unfold os_makedirs. destruct (resolve name) as [e|d]; [by left|].
  intros [?|?]%makedirs_go_new_dirs; [by left|right; by exists d].
Qed.

Lemma resolve_join_snapshot (dir : string) (p : path) :
  resolve (os_path_join dir "snapshot_model.params") = inr p →
  ∃ d, p = d ++ ["snapshot_model.params"]
       ∧ ∀ d', resolve dir = inr d' → d' = d.
Proof.
  destruct (decide (dir = "")) as [->|Hdir].
  - intros [= <-]. exists []. split; [done|]. by intros d' [=].
  - destruct (resolve dir) as [e|d] eqn:Hd.
    { unfold resolve in Hd. by rewrite bool_decide_eq_false_2 in Hd. }
    rewrite (resolve_join dir "snapshot_model.params" d Hdir eq_refl Hd).
    intros [= <-]. exists d. split; [done|]. by intros d' [= <-].
Qed.

(** X14: a second triggered save into the same directory returns normally
    although the directory now exists, and replaces the snapshot by the
    parameters the model has then; no other file changes. *)
Theorem SnapshotModel_call_again_overwrites (self : SnapshotModel)
    (w w' : World) (m m' : Model) :
  (trigger_call (sm_trigger self) (trainer w)).1 = true →
  updater_models (trainer w) = HasModel m →
  (SnapshotModel_call self w).1.1 = inr tt →
  out (trainer w') = out (trainer w) →
  fs w' = fs (SnapshotModel_call self w).2 →
  updater_models (trainer w') = HasModel m' →
  (trigger_call (sm_trigger (SnapshotModel_call self w).1.2) (trainer w')).1
  = true →
  ∃ p,
    resolve (os_path_join (os_path_join (out (trainer w)) (save_dir self))
                          "snapshot_model.params") = inr p
    ∧ files (fs w') = <[p := state_dict_bytes (params m)]> (files (fs w))
    ∧ (SnapshotModel_call (SnapshotModel_call self w).1.2 w').1.1 = inr tt
    ∧ files (fs (SnapshotModel_call (SnapshotModel_call self w).1.2 w').2)
      = <[p := state_dict_bytes (params m')]> (files (fs w)).
Proof.
  intros Hfire Hm. unfold SnapshotModel_call at 1 2 3 5 7.
  destruct (trigger_call (sm_trigger self) (trainer w)) as [fired ts].
  simpl in Hfire. subst fired.
  set (dir := os_path_join (out (trainer w)) (save_dir self)).
  pose proof (os_makedirs_frame dir (fs w)) as [Hf1 _].
  destruct (os_makedirs dir (fs w)) as [made fs1]. simpl in Hf1.
  destruct (except_OSError_pass made) as [e|[]]; [done|].
  rewrite Hm. unfold save_state_dicts.
  destruct (torch_save m (os_path_join dir "snapshot_model.params") fs1)
    as [e|fs2] eqn:Hsave; [done|].
  apply torch_save_inr in Hsave as (p & Hp & Hfile & Hparent & Hf2 & Hd2).
  simpl. intros _ Hout Hfs Hm' Hfire'. exists p.
  split; [done|]. split; [by rewrite Hfs Hf2 Hf1|].
  unfold SnapshotModel_call. simpl.
  destruct (trigger_call ts (trainer w')) as [fired ts'].
  simpl in Hfire'. subst fired. rewrite Hout Hfs. fold dir.
  pose proof (os_makedirs_frame dir fs2) as [Hf3 Hd3].
  pose proof (os_makedirs_raises_OSError dir fs2) as Hos.
  pose proof (os_makedirs_new_dirs dir fs2) as Hnew.
  destruct (os_makedirs dir fs2) as [made' fs3]. simpl in *.
  assert (except_OSError_pass made' = inr tt) as ->.
  { destruct made' as [e|[]]; [|done]. by destruct (Hos e eq_refl) as [k ->]. }
  rewrite Hm'. unfold save_state_dicts.
  destruct (resolve_join_snapshot dir p Hp) as (d & -> & Hdir).
  assert (fs_isdir fs3 (d ++ ["snapshot_model.params"]) = false) as Hfile3.
  { unfold fs_isdir in *. apply bool_decide_eq_false.
    apply bool_decide_eq_false in Hfile.
    intros [?|[?|Hin]]; [tauto..|].
    apply Hnew in Hin as [Hin|(d' & Hd' & Hpre)]; [rewrite Hd2 in Hin; tauto|].
    rewrite (Hdir d' Hd') in Hpre. by apply not_prefix_of_snoc in Hpre. }
  assert (fs_isdir fs3 (parent (d ++ ["snapshot_model.params"])) = true)
    as Hparent3.
  { apply (fs_isdir_mono fs2); [done|].
    unfold fs_isdir in *. by rewrite Hd2. }
  rewrite (torch_save_ok m' _ _ fs3 Hp Hfile3 Hparent3).
  simpl. split; [done|]. by rewrite Hf3 Hf2 Hf1 insert_insert_eq.
Qed.

(** X15: when the updater has named models, a [finalize] that returns
    normally has written the parameters of every model to its own file
    [<name>_latest_model.params], has changed no other file and has made no
    directory, provided the file names of different models resolve to
    different paths. *)
Theorem SnapshotModel_finalize_writes_each_model (self : SnapshotModel)
    (w : World) (ms : list (string * Model)) :
  updater_models (trainer w) = HasModels ms →
  (SnapshotModel_finalize self w).1 = inr tt →
  NoDup (map (λ km : string * Model,
                resolve (os_path_join
                           (os_path_join (out (trainer w)) (save_dir self))
                           (latest_name km.1))) ms) →
  (∀ k m p, (k, m) ∈ ms →
     resolve (os_path_join (os_path_join (out (trainer w)) (save_dir self))
                           (latest_name k)) = inr p →
     files (fs (SnapshotModel_finalize self w).2) !! p
     = Some (state_dict_bytes (params m)))
  ∧ (∀ q, (∀ k m, (k, m) ∈ ms →
             resolve (os_path_join
                        (os_path_join (out (trainer w)) (save_dir self))
                        (latest_name k)) ≠ inr q) →
       files (fs (SnapshotModel_finalize self w).2) !! q = files (fs w) !! q)
  ∧ dirs (fs (SnapshotModel_finalize self w).2) = dirs (fs w).
Proof.
  intros Hms. unfold SnapshotModel_finalize. rewrite Hms. simpl.
  set (dir := os_path_join (out (trainer w)) (save_dir self)).
  destruct (save_each dir latest_name ms (fs w)) as [[e|[]] fs1] eqn:Hsave;
    [done|].
  intros _ Hnodup. simpl. by apply (save_each_inr _ _ _ _ _ Hsave Hnodup).
Qed.

(** ** The console table of LogReport *)

Lemma str_length_repeat (c : ascii) (n : nat) :
  String.length (str_repeat c n) = n.
Proof. induction n as [|n IH]; [done|]. simpl. by rewrite IH. Qed.

Lemma ljust_length (width : nat) (s : string) :
  String.length (ljust width s) = (width `max` String.length s)%nat.
Proof.
  unfold ljust. rewrite str_length_append str_length_repeat. lia.
Qed.

(** X16: the rows of the console table line up with its header.  The
    constructor prints one header cell per key and [printout] one cell per
    key for the record a fired call has appended; when every key and every
    formatted value is no wider than its column, each cell of the row is
    exactly as wide as the header cell above it. *)
Theorem LogReport_row_aligns_with_header (ks : list string)
    (trigger : TriggerState) (name : string) (s : Summarizer)
    (lg : list (gmap string pyval)) (means : gmap string Qc) (t : Trainer)
    (w0 w : World) :
  forallb (cell_fits (make_record means t)) ks = true →
  ∃ header row,
    (LogReport_init (Some ks) trigger name true w0).2
    = stdout_write (str_concat header +:+ newline) w0
    ∧ (LogReport_printout
         (mkLogReport (Some ks) trigger name s (lg ++ [make_record means t])
                      true) w).2
      = stdout_write (esc +:+ "[2K" +:+ esc +:+ "[G" +:+ str_concat row
                          +:+ newline) w
    ∧ length header = length ks ∧ length row = length ks
    ∧ ∀ i h c, header !! i = Some h → row !! i = Some c →
               String.length h = String.length c.
Proof.
  intros Hfits.
  exists (map (λ key, ljust (column_width key) key) ks),
         (map (printout_cell (make_record means t)) ks).
  split; [done|]. split.
  { unfold LogReport_printout. simpl. by rewrite printout_cells_snoc. }
  rewrite !length_map. do 2 (split; [done|]).
  intros i h c. rewrite !list_lookup_fmap.
  destruct (ks !! i) as [key|] eqn:Hkey; [|done]. simpl. intros [= <-] [= <-].
  rewrite forallb_forall in Hfits.
  pose proof (Hfits key (proj1 (list_elem_of_In _ _)
                           (list_elem_of_lookup_2 _ _ _ Hkey))) as Hfit.
  unfold cell_fits in Hfit.
  apply andb_true_iff in Hfit as [Hk%bool_decide_eq_true Hv].
  rewrite ljust_length. unfold printout_cell.
  destruct (make_record_counters means t) as (Hepoch & Hiter & _).
  destruct (make_record means t !! key) as [v|] eqn:Hrec.
  - apply bool_decide_eq_true in Hv. unfold column_width in *.
    destruct (bool_decide (key ∈ ["epoch"; "iteration"]));
      rewrite ljust_length; lia.
  - assert (key ∉ ["epoch"; "iteration"]) as Hnot.
    { intros [->|[->|[]%elem_of_nil]%elem_of_cons]%elem_of_cons; congruence. }
    rewrite ljust_length. unfold column_width in *.
    rewrite (bool_decide_eq_false_2 _ Hnot) in Hk.
    rewrite (bool_decide_eq_false_2 _ Hnot). simpl. lia.
Qed.

Lemma make_record_is_Some (means : gmap string Qc) (t : Trainer) (key : string) :
  is_Some (make_record means t !! key) →
  is_Some (means !! key) ∨ key ∈ ["epoch"; "iteration"; "elapsed_time"].
Proof.
  destruct (decide (key ∈ ["epoch"; "iteration"; "elapsed_time"])) as [?|Hkey];
    [by right|].
  rewrite make_record_lookup; [|done]. rewrite fmap_is_Some. by left.
Qed.

(** X17: a fire appends exactly one record to the in-memory log, whether
    the call then returns or raises, and with a key list the record has no
    entries but those of requested keys and the three counters [epoch],
    [iteration] and [elapsed_time]. *)
Theorem LogReport_record_has_requested_keys_only (self self_n : LogReport)
    (ks : list string) (ws : list World) (w : World) :
  summarizer self = Summarizer_new →
  keys self = Some ks →
  LogReport_quiet_calls self ws = Some self_n →
  (trigger_call (lr_trigger self_n) (trainer w)).1 = true →
  ∃ record,
    log (LogReport_call self_n w).1.2 = log self ++ [record]
    ∧ ∀ key, is_Some (record !! key) →
             key ∈ ks ∨ key ∈ ["epoch"; "iteration"; "elapsed_time"].
Proof.
  intros Hfresh Hks (Hsum & Hlog & Hkeys & Hname & Hprint)%LogReport_quiet_calls_state
         Hfire.
  rewrite LogReport_call_fired; [|done]. cbv zeta.
  set (s1 := Summarizer_add (summarizer self_n) (LogReport_folded self_n w)).
  assert (s1 = foldl Summarizer_add Summarizer_new
                     (map (LogReport_folded self) (ws ++ [w]))) as Hs1.
  { rewrite map_app foldl_app /= -Hfresh -Hsum. unfold s1, LogReport_folded.
    by rewrite Hkeys. }
  set (record := make_record (Summarizer_compute_mean s1) (trainer w)).
  set (self2 := mkLogReport _ _ _ _ _ _).
  exists record. split.
  { rewrite -Hlog.
    destruct (LogReport_persist self2 w) as [[e|[]] w1]; [done|].
    by destruct (if _print self2 then LogReport_printout self2 w1
                 else (inr (), w1)) as [[e|[]] w2]. }
  intros key [Hmean|?]%make_record_is_Some; [left|by right].
  rewrite Hs1 Summarizer_interval_mean in Hmean.
  apply interval_mean_is_Some in Hmean
    as (d & (w0 & <- & _)%list_elem_of_In%in_map_iff & Hsome).
  unfold LogReport_folded in Hsome. rewrite Hks dict_select_lookup in Hsome.
  destruct (decide (key ∈ ks)); [done|]. by destruct Hsome.
Qed.

End Theorems.

(** * The embedding on concrete inputs *)

Section Examples.
#[local] Existing Instance demo_domain.
#[local] Existing Instance demo_collab.

(** C3: two batches report the losses 1 and 3; the evaluator returns
    normally and the value it reports under [eval/loss] is 7/3, the mean of
    1, 3 and 3: the last batch's dictionary is still bound to [observation]
    when the block after the loop adds it to the summarizer a second time.
    The simple average of the two reported losses is 2. *)
Theorem MetricEvaluater_counts_last_batch_twice :
  (MetricEvaluater_call demo_metric_evaluater demo_world).1.1 = inr tt
  ∧ this <$> (observation
                (trainer (MetricEvaluater_call demo_metric_evaluater demo_world).2)
              !! "eval/loss") = Some (7 # 3)%Q
  ∧ this (mean [Q2Qc 1; Q2Qc 3]) = (2 # 1)%Q
  ∧ observation
      (trainer (MetricEvaluater_call demo_metric_evaluater demo_world).2)
    !! "eval/loss" ≠ Some (mean [Q2Qc 1; Q2Qc 3]).
Proof.
  split; [by vm_compute|]. split; [by vm_compute|]. split; [by vm_compute|].
  intros Heq. apply (f_equal (fmap this)) in Heq. by vm_compute in Heq.
Qed.

(** C4: the output directory [result] exists, the snapshot directory
    [result/ckpt] was never made because the trigger never fired; after a
    call that does not fire, [finalize] raises [FileNotFoundError] and no
    "latest" file exists. *)
Theorem SnapshotModel_finalize_without_directory :
  let called := SnapshotModel_call demo_snapshot demo_world in
  called.1.1 = inr tt
  ∧ fs called.2 = fs demo_world
  ∧ (SnapshotModel_finalize called.1.2 called.2).1
    = inl (OSError FileNotFoundError)
  ∧ files (fs (SnapshotModel_finalize called.1.2 called.2).2)
    !! ["result"; "ckpt"; "latest_model.params"] = None.
Proof. by vm_compute. Qed.

(** Against C6 as it is worded: with the default [save_dir] and the current
    directory as output directory, [os.makedirs('')] raises
    [FileNotFoundError], which is not the directory-already-exists error;
    the call does not raise it but writes the snapshot and returns
    normally. *)
Lemma SnapshotModel_call_ignores_makedirs_ENOENT :
  (os_makedirs (os_path_join (out (trainer demo_world_cwd))
                             (save_dir demo_snapshot_default))
               (fs demo_world_cwd)).1
  = inl (OSError FileNotFoundError)
  ∧ OSError FileNotFoundError ≠ OSError FileExistsError
  ∧ (SnapshotModel_call demo_snapshot_default demo_world_cwd).1.1 = inr tt
  ∧ files (fs (SnapshotModel_call demo_snapshot_default demo_world_cwd).2)
    !! ["snapshot_model.params"] = Some "params:0".
Proof. by vm_compute. Qed.

Lemma SnapshotModel_call_swallows_makedirs_errors_witness :
  (SnapshotModel_call demo_snapshot_default demo_world_cwd).1.1 = inr tt.
Proof.
  destruct (SnapshotModel_call_swallows_makedirs_errors
              demo_snapshot_default demo_world_cwd)
    as (_ & _ & _ & Hswallowed).
  - vm_compute. reflexivity.
  - apply (Hswallowed (OSError FileNotFoundError)).
    + vm_compute. reflexivity.
    + vm_compute. reflexivity.
Defined.

Lemma LogReport_persist_crash_keeps_log_witness :
  let self :=
    mkLogReport (Some ["epoch"]) FireAlways "log" Summarizer_new [∅; ∅] true in
  files (LogReport_persist_crash self 2 demo_world_logged) !! ["result"; "log"]
  = files (fs demo_world_logged) !! ["result"; "log"].
Proof.
  intros self.
  apply (LogReport_persist_crash_keeps_log self demo_world_logged 2
           ["result"; "log"]).
  - vm_compute. reflexivity.
  - vm_compute. reflexivity.
  - vm_compute. lia.
Defined.

(** Two steps whose observations carry the training loss, 2 and then 4,
    and an accuracy that the key list does not name: the record holds the
    mean 3 of the losses and no accuracy. *)
Lemma LogReport_fire_appends_interval_means_witness :
  let self := demo_log_report (FireScript [false; true]) in
  let step (loss : Qc) :=
    set_trainer
      (set_observation
         (<["training/accuracy" := Q2Qc 1]> {["training/loss" := loss]})
         demo_trainer) demo_world in
  ∃ record,
    log (LogReport_call (LogReport_call self (step (Q2Qc 2))).1.2
                        (step (Q2Qc 4))).1.2
    = [record]
    ∧ record !! "training/loss" = Some (PyFloat (Q2Qc 3))
    ∧ record !! "training/accuracy" = None.
Proof.
  intros self step.
  destruct (LogReport_fire_appends_interval_means
              self (LogReport_call self (step (Q2Qc 2))).1.2
              [step (Q2Qc 2)] (step (Q2Qc 4)))
    as (record & Hlog & _ & Hout & Hin & _).
  - vm_compute. reflexivity.
  - vm_compute. reflexivity.
  - vm_compute. reflexivity.
  - vm_compute. reflexivity.
  - exists record. split; [exact Hlog|]. split.
    + assert (record !! "training/loss"
              = PyFloat <$> interval_mean
                  (map (λ w', observation (trainer w'))
                       ([step (Q2Qc 2)] ++ [step (Q2Qc 4)])) "training/loss")
        as ->.
      { apply (Hin "training/loss").
        - intros ks [= <-]. vm_compute. right. left.
        - vm_compute. intros Hel.
          repeat (inversion Hel as [|? ? ? Hel']; clear Hel; rename Hel' into Hel). }
      change (Some (PyFloat (Q2Qc 3))) with (PyFloat <$> Some (Q2Qc 3)).
      f_equal. unfold interval_mean. vm_compute interval_values.
      f_equal. apply Qc_is_canon. vm_compute. reflexivity.
    + apply (Hout ["epoch"; "training/loss"; "eval/loss"; "elapsed_time"]).
      * vm_compute. reflexivity.
      * vm_compute. intros Hel.
        repeat (inversion Hel as [|? ? ? Hel']; clear Hel; rename Hel' into Hel).
      * vm_compute. intros Hel.
        repeat (inversion Hel as [|? ? ? Hel']; clear Hel; rename Hel' into Hel).
Defined.

Lemma LogReport_quiet_call_frame_witness :
  (LogReport_call (demo_log_report FireNever) demo_world).2 = demo_world.
Proof.
  apply (LogReport_quiet_call_frame (demo_log_report FireNever) demo_world).
  vm_compute. reflexivity.
Defined.

Lemma LogReport_printout_blank_padding_witness :
  printout_cell (make_record ∅ demo_trainer) "eval/loss"
  = str_repeat " "%char (column_width "eval/loss").
Proof.
  apply (@LogReport_printout_blank_padding demo_domain demo_collab
           [] FireNever "log" Summarizer_new [] true ∅ demo_trainer demo_world).
  vm_compute. reflexivity.
Defined.

Lemma evaluators_restore_training_mode_witness :
  (∃ m1, get_model (ClassifyEvaluater_call demo_classify_evaluater demo_world).2
         = inr m1 ∧ training m1 = true ∧ params m1 = params demo_model
         ∧ grad_enabled (ClassifyEvaluater_call demo_classify_evaluater demo_world).2
           = grad_enabled demo_world)
  ∧ (∃ m1, get_model (MetricEvaluater_call demo_metric_evaluater demo_world).2
           = inr m1 ∧ training m1 = true ∧ params m1 = params demo_model
           ∧ grad_enabled (MetricEvaluater_call demo_metric_evaluater demo_world).2
             = grad_enabled demo_world).
Proof.
  split.
  - apply (proj1 evaluators_restore_training_mode demo_classify_evaluater
                 demo_world demo_model).
    + vm_compute. reflexivity.
    + vm_compute. reflexivity.
    + intros batch m0 _. reflexivity.
    + left. discriminate.
    + vm_compute. reflexivity.
  - apply (proj2 evaluators_restore_training_mode demo_metric_evaluater
                 demo_world demo_model).
    + vm_compute. reflexivity.
    + vm_compute. reflexivity.
    + intros x m0 Heval. split; [reflexivity|exact Heval].
    + vm_compute. reflexivity.
Defined.

(** The extensions of the sample training script, in registration order:
    the logger and the snapshot keep their order and come first. *)
Lemma Trainer_invocation_order_spec_witness :
  map class_of
      (invocation_order demo_extensions)
  = [ClsLogReport; ClsSnapshotModel; ClsProgressBar; ClsMetricEvaluater]
  ∧ StronglySorted (λ a b, priority b ≤ priority a)
      (invocation_order demo_extensions).
Proof.
  split; [vm_compute; reflexivity|].
  apply (Trainer_invocation_order_spec demo_extensions).
Defined.

Lemma Extension_base_methods_witness :
  ext_finalize (ObjLogReport (demo_log_report FireAlways)) demo_world
  = (inr tt, demo_world).
Proof.
  apply (@Extension_base_methods demo_domain demo_collab
           (@mkExtension demo_domain FireNever) demo_world).
  vm_compute. intros Hin.
  repeat (inversion Hin as [|? ? ? Hin']; clear Hin; rename Hin' into Hin).
Defined.

End Examples.

(** * The further properties on concrete inputs *)

Section MoreExamples.
#[local] Existing Instance demo_domain.
#[local] Existing Instance demo_collab.

Lemma SnapshotModel_call_creates_and_writes_witness :
  (SnapshotModel_call demo_snapshot_stamped demo_world).1.1 = inr tt
  ∧ fs_isdir (fs (SnapshotModel_call demo_snapshot_stamped demo_world).2)
             ["result"; "24-01-01"; "120000"] = true.
Proof.
  destruct (@SnapshotModel_call_creates_and_writes demo_domain demo_collab
              demo_snapshot_stamped demo_world demo_model
              ["result"] ["24-01-01"; "120000"])
    as (Hres & _ & Hdir & _).
  - vm_compute. reflexivity.
  - vm_compute. reflexivity.
  - vm_compute. reflexivity.
  - vm_compute. reflexivity.
  - vm_compute. reflexivity.
  - vm_compute. reflexivity.
  - split; [exact Hres|exact Hdir].
Defined.

Lemma SnapshotModel_call_writes_each_model_witness :
  files (fs (SnapshotModel_call demo_snapshot_firing demo_world_models).2)
  !! ["result"; "ckpt"; "dis_snapshot_model.params"]
  = Some (state_dict_bytes (params demo_dis)).
Proof.
  destruct (@SnapshotModel_call_writes_each_model demo_domain demo_collab
              demo_snapshot_firing demo_world_models demo_models)
    as [Hwritten _].
  - vm_compute. reflexivity.
  - vm_compute. reflexivity.
  - vm_compute. reflexivity.
  - vm_compute. apply NoDup_cons. split.
    + intros Hin. repeat (inversion Hin as [|? ? ? Hin']; clear Hin; rename Hin' into Hin).
    + apply NoDup_cons. split; [|apply NoDup_nil_2].
      intros Hin. inversion Hin.
  - apply (Hwritten "dis" demo_dis).
    + vm_compute. right. left.
    + vm_compute. reflexivity.
Defined.

Lemma SnapshotModel_finalize_after_call_witness :
  ∃ d,
    (SnapshotModel_finalize
       (SnapshotModel_call demo_snapshot_firing demo_world).1.2
       (SnapshotModel_call demo_snapshot_firing demo_world).2).1 = inr tt
    ∧ files (fs (SnapshotModel_finalize
                   (SnapshotModel_call demo_snapshot_firing demo_world).1.2
                   (SnapshotModel_call demo_snapshot_firing demo_world).2).2)
      !! (d ++ ["latest_model.params"])
      = Some (state_dict_bytes (params demo_model))
    ∧ files (fs (SnapshotModel_finalize
                   (SnapshotModel_call demo_snapshot_firing demo_world).1.2
                   (SnapshotModel_call demo_snapshot_firing demo_world).2).2)
      !! (d ++ ["snapshot_model.params"])
      = Some (state_dict_bytes (params demo_model)).
Proof.
  apply (@SnapshotModel_finalize_after_call demo_domain demo_collab
           demo_snapshot_firing demo_world demo_model).
  - vm_compute. reflexivity.
  - vm_compute. reflexivity.
  - vm_compute. reflexivity.
  - intros p. vm_compute. intros [= <-]. reflexivity.
Defined.

Lemma LogReport_call_raises_only_OSError_witness :
  ∃ k, OSError FileNotFoundError = OSError k.
Proof.
  apply (@LogReport_call_raises_only_OSError demo_domain demo_collab
           (Some ["epoch"; "training/loss"; "eval/loss"; "elapsed_time"])
           (FireAlways : @TriggerState demo_domain) "log" true
           demo_world
           (LogReport_init
              (Some ["epoch"; "training/loss"; "eval/loss"; "elapsed_time"])
              (FireAlways : @TriggerState demo_domain) "log" true demo_world).2
           (demo_log_report FireAlways) (demo_log_report FireAlways)
           demo_world_lost).
  - vm_compute. reflexivity.
  - vm_compute. reflexivity.
  - vm_compute. reflexivity.
  - vm_compute. reflexivity.
Defined.

Lemma LogReport_failed_fire_carries_over_witness :
  let self := demo_log_report (FireScript [true; true]) in
  let next := set_trainer (set_observation {["training/loss" := Q2Qc 4]}
                                           demo_trainer) demo_world in
  ∃ failed record,
    log (LogReport_call self demo_world_lost).1.2 = [failed]
    ∧ log (LogReport_call (LogReport_call self demo_world_lost).1.2 next).1.2
      = [failed; record]
    ∧ record !! "training/loss"
      = PyFloat <$> interval_mean
                      (map (LogReport_folded self) [demo_world_lost; next])
                      "training/loss".
Proof.
  intros self next.
  destruct (@LogReport_failed_fire_carries_over demo_domain demo_collab
              self self (LogReport_call self demo_world_lost).1.2
              [] [] demo_world_lost next (OSError FileNotFoundError))
    as (failed & record & Hlog1 & Hlog2 & Hmeans).
  - vm_compute. reflexivity.
  - vm_compute. reflexivity.
  - vm_compute. reflexivity.
  - vm_compute. reflexivity.
  - vm_compute. reflexivity.
  - vm_compute. reflexivity.
  - vm_compute. reflexivity.
  - exists failed, record. split; [exact Hlog1|]. split; [exact Hlog2|].
    apply Hmeans. vm_compute. intros Hin.
    repeat (inversion Hin as [|? ? ? Hin']; clear Hin; rename Hin' into Hin).
Defined.

Lemma ProgressBar_call_bars_have_50_cells_witness :
  ∃ (a b : nat) (estimated : string),
    (a ≤ 50)%nat ∧ (b ≤ 50)%nat
    ∧ (ProgressBar_call (mkProgressBar 10 (Q2Qc 0) (Q2Qc 0)) demo_world).1.1
      = inr tt
    ∧ stdout (ProgressBar_call (mkProgressBar 10 (Q2Qc 0) (Q2Qc 0)) demo_world).2
      = stdout demo_world
        ++ [esc +:+ "[2K" +:+ esc +:+ "[G"
              +:+ ("     Total: [" +:+ str_repeat "#"%char a
                     +:+ str_repeat " "%char (50 - a) +:+ "]")
              +:+ newline
              +:+ ("This Epoch: [" +:+ str_repeat "#"%char b
                     +:+ str_repeat " "%char (50 - b) +:+ "]")
              +:+ newline +:+ estimated +:+ esc +:+ "[1A" +:+ esc +:+ "[1A"
              +:+ esc +:+ "[G"].
Proof.
  apply (@ProgressBar_call_bars_have_50_cells demo_domain demo_collab
           (mkProgressBar 10 (Q2Qc 0) (Q2Qc 0)) demo_world).
  - vm_compute. discriminate.
  - vm_compute. reflexivity.
  - vm_compute. reflexivity.
  - vm_compute. reflexivity.
  - vm_compute. split; discriminate.
  - vm_compute. split; discriminate.
Defined.

Lemma ClassifyEvaluater_reports_batch_means_witness :
  ∃ means w1,
    (ClassifyEvaluater_call demo_classify_evaluater demo_world).2
    = report means None w1
    ∧ this <$> means !! "validation/loss" = Some (2 # 1)%Q.
Proof.
  destruct (@ClassifyEvaluater_reports_batch_means demo_domain demo_collab
              demo_classify_evaluater demo_world demo_model)
    as (means & w1 & Hcall & _ & _ & _ & Hmeans & _).
  - vm_compute. reflexivity.
  - vm_compute. reflexivity.
  - intros batch m0. reflexivity.
  - vm_compute. reflexivity.
  - exists means, w1. split; [exact Hcall|].
    rewrite (Hmeans "loss"). vm_compute. reflexivity.
Defined.

Lemma ClassifyEvaluater_raise_leaves_eval_mode_witness :
  ∃ m1, get_model (ClassifyEvaluater_call demo_classify_failing demo_world).2
        = inr m1
        ∧ training m1 = false
        ∧ grad_enabled (ClassifyEvaluater_call demo_classify_failing demo_world).2
          = grad_enabled demo_world
        ∧ reporters (ClassifyEvaluater_call demo_classify_failing demo_world).2
          = reporters demo_world.
Proof.
  apply (@ClassifyEvaluater_raise_leaves_eval_mode demo_domain demo_collab
           demo_classify_failing demo_world demo_model ValueError).
  - vm_compute. reflexivity.
  - vm_compute. reflexivity.
  - intros batch m0. reflexivity.
  - vm_compute. reflexivity.
Defined.

Lemma MetricEvaluater_empty_loader_raises_witness :
  (MetricEvaluater_call demo_metric_empty demo_world).1.1
  = inl (UnboundLocalError "observation").
Proof.
  apply (@MetricEvaluater_empty_loader_raises demo_domain demo_collab
           demo_metric_empty demo_world demo_model).
  - vm_compute. reflexivity.
  - vm_compute. reflexivity.
  - vm_compute. reflexivity.
Defined.

Lemma ext_call_quiet_step_witness :
  (ext_call (ObjSnapshotModel demo_snapshot) demo_world).2 = demo_world.
Proof.
  apply (@ext_call_quiet_step demo_domain demo_collab
           (ObjSnapshotModel demo_snapshot) demo_world).
  vm_compute. reflexivity.
Defined.

Lemma SnapshotModel_call_again_overwrites_witness :
  let first := SnapshotModel_call demo_snapshot_firing demo_world in
  let trained := mkModel 7 true {["w" := [Q2Qc 1]]} in
  let later := set_fs (fs first.2) (set_model trained demo_world) in
  (SnapshotModel_call first.1.2 later).1.1 = inr tt
  ∧ files (fs (SnapshotModel_call first.1.2 later).2)
    !! ["result"; "ckpt"; "snapshot_model.params"]
    = Some (state_dict_bytes (params trained)).
Proof.
  intros first trained later.
  destruct (@SnapshotModel_call_again_overwrites demo_domain demo_collab
              demo_snapshot_firing demo_world later demo_model trained)
    as (p & Hp & _ & Hres & Hfiles).
  - vm_compute. reflexivity.
  - vm_compute. reflexivity.
  - vm_compute. reflexivity.
  - vm_compute. reflexivity.
  - vm_compute. reflexivity.
  - vm_compute. reflexivity.
  - vm_compute. reflexivity.
  - split; [exact Hres|]. unfold first. rewrite Hfiles.
    vm_compute in Hp. injection Hp as <-. apply lookup_insert_eq.
Defined.

Lemma SnapshotModel_finalize_writes_each_model_witness :
  files (fs (SnapshotModel_finalize demo_snapshot_default demo_world_models).2)
  !! ["result"; "gen_latest_model.params"]
  = Some (state_dict_bytes (params demo_gen)).
Proof.
  destruct (@SnapshotModel_finalize_writes_each_model demo_domain demo_collab
              demo_snapshot_default demo_world_models demo_models)
    as [Hwritten _].
  - vm_compute. reflexivity.
  - vm_compute. reflexivity.
  - vm_compute. apply NoDup_cons. split.
    + intros Hin. repeat (inversion Hin as [|? ? ? Hin']; clear Hin; rename Hin' into Hin).
    + apply NoDup_cons. split; [|apply NoDup_nil_2].
      intros Hin. inversion Hin.
  - apply (Hwritten "gen" demo_gen).
    + vm_compute. left.
    + vm_compute. reflexivity.
Defined.

Lemma LogReport_row_aligns_with_header_witness :
  ∃ header row,
    (LogReport_init (Some ["epoch"; "training/loss"; "eval/loss"])
                    (FireAlways : @TriggerState demo_domain) "log" true
                    demo_world).2
    = stdout_write (str_concat header +:+ newline) demo_world
    ∧ (LogReport_printout
         (mkLogReport (Some ["epoch"; "training/loss"; "eval/loss"])
            (FireAlways : @TriggerState demo_domain) "log" Summarizer_new
            ([] ++ [make_record {["training/loss" := Q2Qc 2]} demo_trainer])
            true) demo_world).2
      = stdout_write (esc +:+ "[2K" +:+ esc +:+ "[G" +:+ str_concat row
                          +:+ newline) demo_world
    ∧ length header = 3%nat ∧ length row = 3%nat
    ∧ ∀ i h c, header !! i = Some h → row !! i = Some c →
               String.length h = String.length c.
Proof.
  apply (@LogReport_row_aligns_with_header demo_domain demo_collab
           ["epoch"; "training/loss"; "eval/loss"]
           (FireAlways : @TriggerState demo_domain) "log"
           Summarizer_new [] {["training/loss" := Q2Qc 2]} demo_trainer
           demo_world demo_world).
  vm_compute. reflexivity.
Defined.

Lemma LogReport_record_has_requested_keys_only_witness :
  let self := demo_log_report (FireScript [false; true]) in
  ∃ record,
    log (LogReport_call (LogReport_call self demo_world).1.2 demo_world).1.2
    = [record]
    ∧ ∀ key, is_Some (record !! key) →
             key ∈ ["epoch"; "training/loss"; "eval/loss"; "elapsed_time"]
             ∨ key ∈ ["epoch"; "iteration"; "elapsed_time"].
Proof.
  intros self.
  apply (@LogReport_record_has_requested_keys_only demo_domain demo_collab
           self (LogReport_call self demo_world).1.2
           ["epoch"; "training/loss"; "eval/loss"; "elapsed_time"]
           [demo_world] demo_world).
  - vm_compute. reflexivity.
  - vm_compute. reflexivity.
  - vm_compute. reflexivity.
  - vm_compute. reflexivity.
Defined.

End MoreExamples.
